(** * The two C interop libraries: [mathlib.c] and [sample.c]

    A shallow embedding of the functions of
    [10_c_interop/n087_custom_c/c_src/mathlib.c] and
    [10_c_interop/n088_translate_c/c_src/sample.c], and the properties the
    specification states about them.

    Conventions of the embedding.
    - [int32_t] values are integers of [Z]; every arithmetic operation on
      them is followed by the two's-complement reduction [Int32.wrap].
    - [size_t] values are integers of [Z] reduced modulo [2^64].
    - Memory is a finite map from blocks (one per C object) to the list of
      cells of the object.  A pointer is either [Null] or a block and an
      offset counted in cells; an access outside its block, or through
      [Null], is undefined behaviour.
    - A function that touches memory takes the heap and returns the new
      one; the result of a run is [Ret], [Undefined] or [OutOfFuel].
    - Every loop is a [Fixpoint] on a fuel counter; one unit of fuel is
      spent per execution of the loop body. *)

From Stdlib Require Import ZArith Lia List Factorial Morphisms Setoid
  Strings.Byte Strings.String.
From stdpp Require Import base option list gmap.

Local Open Scope Z_scope.

(** ** Machine integers *)

Module Int32.
Definition modulus : Z := 2 ^ 32.
Definition half_modulus : Z := 2 ^ 31.
Definition min_signed : Z := - half_modulus.
Definition max_signed : Z := half_modulus - 1.

Definition in_range (z : Z) : Prop := min_signed <= z <= max_signed.

(** Reduce modulo [2^32] and read the 32 bits back as a signed number. *)
Definition wrap (z : Z) : Z :=
  let r := z mod modulus in
  if r <? half_modulus then r else r - modulus.

Definition add (a b : Z) : Z := wrap (a + b).
Definition sub (a b : Z) : Z := wrap (a - b).
Definition mul (a b : Z) : Z := wrap (a * b).
End Int32.

Module USize.
Definition modulus : Z := 2 ^ 64.
Definition in_range (z : Z) : Prop := 0 <= z < modulus.
Definition wrap (z : Z) : Z := z mod modulus.
Definition add (a b : Z) : Z := wrap (a + b).
Definition sub (a b : Z) : Z := wrap (a - b).
End USize.

(** ** Results of a run *)

Inductive outcome (A : Type) : Type :=
| Ret (a : A)
| Undefined
| OutOfFuel.
Arguments Ret {A} a.
Arguments Undefined {A}.
Arguments OutOfFuel {A}.

#[global] Instance outcome_ret : MRet outcome := @Ret.
#[global] Instance outcome_bind : MBind outcome := λ A B f c,
  match c with
  | Ret a => f a
  | Undefined => Undefined
  | OutOfFuel => OutOfFuel
  end.

(** ** Memory *)

Definition block := positive.

Inductive ptr : Type :=
| Null
| Ptr (b : block) (ofs : Z).
Arguments Ptr b%_positive ofs%_Z.

Definition is_null (p : ptr) : bool :=
  match p with Null => true | Ptr _ _ => false end.

(** [p + k], in cells of the pointed-to type. *)
Definition ptr_add (p : ptr) (k : Z) : ptr :=
  match p with
  | Null => Null
  | Ptr b ofs => Ptr b (ofs + k)
  end.
Infix "+ₚ" := ptr_add (at level 50, left associativity).

Section Heap.
Context {A : Type}.

Definition load (m : gmap block (list A)) (p : ptr) : outcome A :=
  match p with
  | Null => Undefined
  | Ptr b ofs =>
      if ofs <? 0 then Undefined
      else match m !! b with
           | None => Undefined
           | Some cells =>
               match cells !! Z.to_nat ofs with
               | None => Undefined
               | Some v => Ret v
               end
           end
  end.

Definition store (m : gmap block (list A)) (p : ptr) (v : A)
  : outcome (gmap block (list A)) :=
  match p with
  | Null => Undefined
  | Ptr b ofs =>
      if ofs <? 0 then Undefined
      else match m !! b with
           | None => Undefined
           | Some cells =>
               if ofs <? Z.of_nat (length cells)
               then Ret (<[b := <[Z.to_nat ofs := v]> cells]> m)
               else Undefined
           end
  end.
End Heap.

(** The terminator of a C string, and the test [c != 0] on a [char]. *)
Definition NUL : byte := x00.
Definition is_nul (c : byte) : bool := Byte.eqb c NUL.

(** [strlen] of the C library: the number of bytes before the first
    terminator of the object [str] points into. *)
Fixpoint cstr_len (cells : list byte) : option nat :=
  match cells with
  | [] => None
  | c :: rest => if is_nul c then Some O else S <$> cstr_len rest
  end.

Definition strlen (m : gmap block (list byte)) (str : ptr) : outcome Z :=
  match str with
  | Null => Undefined
  | Ptr b ofs =>
      if ofs <? 0 then Undefined
      else match m !! b with
           | None => Undefined
           | Some cells =>
               match cstr_len (drop (Z.to_nat ofs) cells) with
               | None => Undefined
               | Some n => Ret (Z.of_nat n)
               end
           end
  end.

(** ** Function pointers

    A [BinaryOp] is [None] for the null function pointer and otherwise the
    code of a callback, which may read and change the caller's world.  The
    state of a run records every call made through a function pointer. *)

Section Callbacks.
Context {World : Type}.

Record cstate : Type := CState {
  world : World;
  calls : list (Z * Z)
}.

Definition code : Type := Z → Z → World → outcome (Z * World).
Definition BinaryOp : Type := option code.

Definition invoke (op : BinaryOp) (a b : Z) (s : cstate)
  : outcome (Z * cstate) :=
  match op with
  | None => Undefined
  | Some f =>
      '(r, w) ← f a b (world s);
      mret (r, CState w (calls s ++ [(a, b)]))
  end.
End Callbacks.
Arguments cstate : clear implicits.
Arguments code : clear implicits.
Arguments BinaryOp : clear implicits.

(** ** mathlib.c *)

Module Mathlib.

Definition add (a b : Z) : Z := Int32.add a b.

Definition multiply (a b : Z) : Z := Int32.mul a b.

Fixpoint factorial_loop (fuel : nat) (n i result : Z) : outcome Z :=
  if i <=? n then
    match fuel with
    | O => OutOfFuel
    | S fuel' =>
        let result' := Int32.mul result i in
        factorial_loop fuel' n (Int32.add i 1) result'
    end
  else Ret result.

Definition factorial (fuel : nat) (n : Z) : outcome Z :=
  if n <=? 1 then Ret 1
  else factorial_loop fuel n 2 1.

Fixpoint array_sum_loop (fuel : nat) (arr : ptr) (len i sum : Z)
    (m : gmap block (list Z)) : outcome Z :=
  if i <? len then
    match fuel with
    | O => OutOfFuel
    | S fuel' =>
        x ← load m (arr +ₚ i);
        array_sum_loop fuel' arr len (USize.add i 1) (Int32.add sum x) m
    end
  else Ret sum.

Definition array_sum (fuel : nat) (arr : ptr) (len : Z)
    (m : gmap block (list Z)) : outcome Z :=
  array_sum_loop fuel arr len 0 0 m.

Fixpoint array_double_loop (fuel : nat) (arr : ptr) (len i : Z)
    (m : gmap block (list Z)) : outcome (gmap block (list Z)) :=
  if i <? len then
    match fuel with
    | O => OutOfFuel
    | S fuel' =>
        x ← load m (arr +ₚ i);
        m' ← store m (arr +ₚ i) (Int32.mul x 2);
        array_double_loop fuel' arr len (USize.add i 1) m'
    end
  else Ret m.

Definition array_double (fuel : nat) (arr : ptr) (len : Z)
    (m : gmap block (list Z)) : outcome (gmap block (list Z)) :=
  array_double_loop fuel arr len 0 m.

Fixpoint count_chars_loop (fuel : nat) (str : ptr) (target : byte)
    (count : Z) (m : gmap block (list byte)) : outcome Z :=
  c ← load m str;
  if is_nul c then Ret count
  else
    match fuel with
    | O => OutOfFuel
    | S fuel' =>
        c' ← load m str;
        let count' := if Byte.eqb c' target then USize.add count 1 else count in
        count_chars_loop fuel' (str +ₚ 1) target count' m
    end.

Definition count_chars (fuel : nat) (str : ptr) (target : byte)
    (m : gmap block (list byte)) : outcome Z :=
  count_chars_loop fuel str target 0 m.

Fixpoint reverse_string_loop (fuel : nat) (str : ptr) (len i : Z)
    (m : gmap block (list byte)) : outcome (gmap block (list byte)) :=
  if i <? len / 2 then
    match fuel with
    | O => OutOfFuel
    | S fuel' =>
        tmp ← load m (str +ₚ i);
        c ← load m (str +ₚ USize.sub (USize.sub len 1) i);
        m1 ← store m (str +ₚ i) c;
        m2 ← store m1 (str +ₚ USize.sub (USize.sub len 1) i) tmp;
        reverse_string_loop fuel' str len (USize.add i 1) m2
    end
  else Ret m.

Definition reverse_string (fuel : nat) (str : ptr)
    (m : gmap block (list byte)) : outcome (gmap block (list byte)) :=
  len ← strlen m str;
  reverse_string_loop fuel str len 0 m.

Record Point : Type := MkPoint { x : Z; y : Z }.

Definition point_add (a b : Point) : Point :=
  MkPoint (Int32.add (x a) (x b)) (Int32.add (y a) (y b)).

Definition point_distance_squared (a b : Point) : Z :=
  let dx := Int32.sub (x b) (x a) in
  let dy := Int32.sub (y b) (y a) in
  Int32.add (Int32.mul dx dx) (Int32.mul dy dy).

Definition apply_operation {World : Type} (a b : Z) (op : BinaryOp World)
    (s : cstate World) : outcome (Z * cstate World) :=
  invoke op a b s.

End Mathlib.

(** ** sample.c *)

Module Sample.

Definition add_numbers (a b : Z) : Z := Int32.add a b.

Definition multiply_numbers (a b : Z) : Z := Int32.mul a b.

Fixpoint sum_array_loop (fuel : nat) (arr : ptr) (len i sum : Z)
    (m : gmap block (list Z)) : outcome Z :=
  if i <? len then
    match fuel with
    | O => OutOfFuel
    | S fuel' =>
        x ← load m (arr +ₚ i);
        sum_array_loop fuel' arr len (USize.add i 1) (Int32.add sum x) m
    end
  else Ret sum.

Definition sum_array (fuel : nat) (arr : ptr) (len : Z)
    (m : gmap block (list Z)) : outcome Z :=
  sum_array_loop fuel arr len 0 0 m.

Fixpoint double_array_loop (fuel : nat) (arr : ptr) (len i : Z)
    (m : gmap block (list Z)) : outcome (gmap block (list Z)) :=
  if i <? len then
    match fuel with
    | O => OutOfFuel
    | S fuel' =>
        x ← load m (arr +ₚ i);
        m' ← store m (arr +ₚ i) (Int32.mul x 2);
        double_array_loop fuel' arr len (USize.add i 1) m'
    end
  else Ret m.

Definition double_array (fuel : nat) (arr : ptr) (len : Z)
    (m : gmap block (list Z)) : outcome (gmap block (list Z)) :=
  double_array_loop fuel arr len 0 m.

Record Vec2 : Type := MkVec2 { x : Z; y : Z }.

Definition vec2_add (a b : Vec2) : Vec2 :=
  MkVec2 (Int32.add (x a) (x b)) (Int32.add (y a) (y b)).

Definition vec2_scale (v : Vec2) (factor : Z) : Vec2 :=
  MkVec2 (Int32.mul (x v) factor) (Int32.mul (y v) factor).

Definition vec2_dot (a b : Vec2) : Z :=
  Int32.add (Int32.mul (x a) (x b)) (Int32.mul (y a) (y b)).

Fixpoint string_length_loop (fuel : nat) (str : ptr) (len : Z)
    (m : gmap block (list byte)) : outcome Z :=
  c ← load m (str +ₚ len);
  if is_nul c then Ret len
  else
    match fuel with
    | O => OutOfFuel
    | S fuel' => string_length_loop fuel' str (USize.add len 1) m
    end.

Definition string_length (fuel : nat) (str : ptr)
    (m : gmap block (list byte)) : outcome Z :=
  if is_null str then Ret 0
  else string_length_loop fuel str 0 m.

(** The [for] loop of [string_copy]; it returns the final [i] with the
    heap.  The condition [i < max_len - 1 && src[i]] reads [src[i]] only
    when the first conjunct holds. *)
Fixpoint string_copy_loop (fuel : nat) (dest src : ptr) (max_len i : Z)
    (m : gmap block (list byte)) : outcome (Z * gmap block (list byte)) :=
  if i <? USize.sub max_len 1 then
    c ← load m (src +ₚ i);
    if is_nul c then Ret (i, m)
    else
      match fuel with
      | O => OutOfFuel
      | S fuel' =>
          c' ← load m (src +ₚ i);
          m' ← store m (dest +ₚ i) c';
          string_copy_loop fuel' dest src max_len (USize.add i 1) m'
      end
  else Ret (i, m).

Definition string_copy (fuel : nat) (dest src : ptr) (max_len : Z)
    (m : gmap block (list byte)) : outcome (gmap block (list byte)) :=
  if is_null dest || is_null src || (max_len =? 0) then Ret m
  else
    '(i, m1) ← string_copy_loop fuel dest src max_len 0 m;
    store m1 (dest +ₚ i) NUL.

Definition apply_op {World : Type} (a b : Z) (op : BinaryOp World)
    (s : cstate World) : outcome (Z * cstate World) :=
  match op with
  | None => Ret (0, s)
  | Some _ => invoke op a b s
  end.

End Sample.

(** ** Reference definitions used by the statements *)

(** [prod_range k i] is the exact product [i * (i+1) * ... * (i+k-1)]. *)
Fixpoint prod_range (k : nat) (i : Z) : Z :=
  match k with
  | O => 1
  | S k' => i * prod_range k' (i + 1)
  end.

(** [occurrences target s] is the number of bytes of [s] equal to [target]. *)
Fixpoint occurrences (target : byte) (s : list byte) : nat :=
  match s with
  | [] => O
  | c :: s' => ((if Byte.eqb c target then 1 else 0) + occurrences target s')%nat
  end.

(** The content of cell [j] of block [b], when there is one, and the
    number of cells of block [b]. *)
Definition cell {A : Type} (m : gmap block (list A)) (b : block) (j : nat)
  : option A :=
  m !! b ≫= λ cells, cells !! j.

Definition block_size {A : Type} (m : gmap block (list A)) (b : block)
  : option nat :=
  length <$> m !! b.

(** [unchanged_outside b lo hi m m']: the heap [m'] differs from [m] at
    most in the cells of block [b] at the offsets [lo <= j < hi]; every
    other block, the size of [b] and every other cell of [b] are those of
    [m]. *)
Definition unchanged_outside {A : Type} (b : block) (lo hi : Z)
    (m m' : gmap block (list A)) : Prop :=
  (∀ b', b' ≠ b → m' !! b' = m !! b')
  ∧ block_size m' b = block_size m b
  ∧ (∀ j : nat, Z.of_nat j < lo ∨ hi <= Z.of_nat j → cell m' b j = cell m b j).

(** A callback that adds its arguments and leaves the world alone. *)
Definition add_callback : code unit := λ a b w, Ret (Int32.add a b, w).

(** [total l] is the exact sum of the integers of [l]. *)
Definition total (l : list Z) : Z := foldr Z.add 0 l.

(** Both components of a vector are 32-bit signed values. *)
Definition vec2_in_range (v : Sample.Vec2) : Prop :=
  Int32.in_range (Sample.x v) ∧ Int32.in_range (Sample.y v).

(** * Properties *)

(** ** Two's-complement reduction *)

Lemma Int32_wrap_range (z : Z) : Int32.in_range (Int32.wrap z).
Proof.
  unfold Int32.in_range, Int32.wrap, Int32.min_signed, Int32.max_signed,
    Int32.half_modulus, Int32.modulus.
  pose proof (Z.mod_pos_bound z (2 ^ 32) ltac:(lia)).
  destruct (Z.ltb_spec (z mod 2 ^ 32) (2 ^ 31)); lia.
Qed.

Lemma Int32_wrap_signed (z : Z) :
  Int32.wrap z = (z + 2 ^ 31) mod 2 ^ 32 - 2 ^ 31.
Proof.
  unfold Int32.wrap, Int32.half_modulus, Int32.modulus.
  pose proof (Z.mod_pos_bound z (2 ^ 32) ltac:(lia)) as Hr.
  pose proof (Z.div_mod z (2 ^ 32) ltac:(lia)) as Hz.
  destruct (Z.ltb_spec (z mod 2 ^ 32) (2 ^ 31)).
  - rewrite <- (Z.mod_unique_pos (z + 2 ^ 31) (2 ^ 32) (z / 2 ^ 32)
                  (z mod 2 ^ 32 + 2 ^ 31)); lia.
  - rewrite <- (Z.mod_unique_pos (z + 2 ^ 31) (2 ^ 32) (z / 2 ^ 32 + 1)
                  (z mod 2 ^ 32 - 2 ^ 31)); lia.
Qed.

Lemma Int32_wrap_mod (z : Z) : Int32.wrap z mod 2 ^ 32 = z mod 2 ^ 32.
Proof.
  unfold Int32.wrap, Int32.half_modulus, Int32.modulus.
  destruct (Z.ltb_spec (z mod 2 ^ 32) (2 ^ 31)).
  - apply Z.mod_mod. lia.
  - replace (z mod 2 ^ 32 - 2 ^ 32) with (z mod 2 ^ 32 + (-1) * 2 ^ 32) by ring.
    rewrite Z.mod_add by lia. apply Z.mod_mod. lia.
Qed.

Lemma Int32_wrap_congr (a b : Z) :
  a mod 2 ^ 32 = b mod 2 ^ 32 → Int32.wrap a = Int32.wrap b.
Proof. intros H. unfold Int32.wrap, Int32.modulus. rewrite H. reflexivity. Qed.

Lemma Int32_wrap_id (z : Z) : Int32.in_range z → Int32.wrap z = z.
Proof.
  unfold Int32.in_range, Int32.min_signed, Int32.max_signed, Int32.half_modulus.
  intros H. rewrite Int32_wrap_signed. rewrite Z.mod_small; lia.
Qed.

Lemma Int32_wrap_mul_l (a b : Z) :
  Int32.wrap (Int32.wrap a * b) = Int32.wrap (a * b).
Proof.
  apply Int32_wrap_congr.
  rewrite Z.mul_mod by lia. rewrite Int32_wrap_mod.
  rewrite <- Z.mul_mod by lia. reflexivity.
Qed.

Lemma USize_wrap_id (z : Z) : USize.in_range z → USize.wrap z = z.
Proof. intros H. apply Z.mod_small. exact H. Qed.

(** ** Arithmetic: [add], [multiply] *)

(** C5.  For 32-bit signed [a] and [b], [add a b] is the signed reading of
    [a + b] reduced modulo [2^32] and [multiply a b] that of [a * b]: the
    result is a 32-bit signed value congruent to the exact one, it is the
    exact one whenever that is representable, and no input is rejected. *)
Theorem add_multiply_wraparound (a b : Z) :
  Int32.in_range a → Int32.in_range b →
  (Mathlib.add a b = (a + b + 2 ^ 31) mod 2 ^ 32 - 2 ^ 31
   ∧ Int32.in_range (Mathlib.add a b)
   ∧ Mathlib.add a b mod 2 ^ 32 = (a + b) mod 2 ^ 32
   ∧ (Int32.in_range (a + b) → Mathlib.add a b = a + b))
  ∧ (Mathlib.multiply a b = (a * b + 2 ^ 31) mod 2 ^ 32 - 2 ^ 31
     ∧ Int32.in_range (Mathlib.multiply a b)
     ∧ Mathlib.multiply a b mod 2 ^ 32 = (a * b) mod 2 ^ 32
     ∧ (Int32.in_range (a * b) → Mathlib.multiply a b = a * b)).
Proof.
  intros _ _. unfold Mathlib.add, Mathlib.multiply, Int32.add, Int32.mul.
  repeat split;
    auto using Int32_wrap_signed, Int32_wrap_range, Int32_wrap_mod, Int32_wrap_id;
    apply Int32_wrap_range.
Qed.

Lemma add_multiply_wraparound_witness :
  Int32.in_range 2147483647 ∧ Int32.in_range 2 ∧
  Mathlib.add 2147483647 2 = -2147483647 ∧
  Mathlib.multiply 2147483647 2 = -2.
Proof.
  assert (Ha : Int32.in_range 2147483647) by (vm_compute; split; discriminate).
  assert (Hb : Int32.in_range 2) by (vm_compute; split; discriminate).
  destruct (add_multiply_wraparound 2147483647 2 Ha Hb) as [[Hadd _] [Hmul _]].
  split; [exact Ha |]. split; [exact Hb |]. split.
  - rewrite Hadd. reflexivity.
  - rewrite Hmul. reflexivity.
Defined.

(** ** [factorial] *)

Lemma prod_range_fact (k j : nat) :
  prod_range k (Z.of_nat j + 1) * Z.of_nat (fact j) = Z.of_nat (fact (j + k)).
Proof.
  revert j. induction k as [|k IH]; intros j.
  - rewrite Nat.add_0_r. simpl. lia.
  - replace (j + S k)%nat with (S j + k)%nat by lia.
    rewrite <- IH. cbn [prod_range].
    replace (Z.of_nat (S j) + 1) with (Z.of_nat j + 1 + 1) by lia.
    replace (Z.of_nat (fact (S j)))
      with ((Z.of_nat j + 1) * Z.of_nat (fact j)) by (cbn [fact]; lia).
    ring.
Qed.

Lemma prod_range_from_2 (n : Z) :
  1 <= n → prod_range (Z.to_nat (n - 1)) 2 = Z.of_nat (fact (Z.to_nat n)).
Proof.
  intros Hn. pose proof (prod_range_fact (Z.to_nat (n - 1)) 1) as H.
  change (Z.of_nat 1 + 1) with 2 in H. change (Z.of_nat (fact 1)) with 1 in H.
  replace (1 + Z.to_nat (n - 1))%nat with (Z.to_nat n) in H by lia. lia.
Qed.

(** The loop started at [i] with [k] values left to multiply, below the
    largest [int32_t], multiplies them all into [result]. *)
Lemma factorial_loop_run (n : Z) :
  n < Int32.max_signed →
  ∀ (k fuel : nat) (i r : Z),
    Int32.min_signed <= i → i + Z.of_nat k = n + 1 → (k ≤ fuel)%nat →
    Int32.in_range r →
    Mathlib.factorial_loop fuel n i r = Ret (Int32.wrap (r * prod_range k i)).
Proof.
  intros Hn. induction k as [|k IH]; intros fuel i r Hi Hk Hfuel Hr.
  - assert (Hcond : (i <=? n) = false) by (apply Z.leb_gt; lia).
    destruct fuel; cbn [Mathlib.factorial_loop prod_range]; rewrite Hcond;
      rewrite Z.mul_1_r, Int32_wrap_id by exact Hr; reflexivity.
  - destruct fuel as [|fuel]; [lia |].
    assert (Hcond : (i <=? n) = true) by (apply Z.leb_le; lia).
    cbn [Mathlib.factorial_loop prod_range]. rewrite Hcond.
    assert (Hnext : Int32.add i 1 = i + 1).
    { apply Int32_wrap_id. unfold Int32.in_range. lia. }
    rewrite Hnext. rewrite IH; [| lia | lia | lia | apply Int32_wrap_range].
    unfold Int32.mul. rewrite Int32_wrap_mul_l. f_equal. f_equal. ring.
Qed.

(** X4.  Below the largest [int32_t], [factorial] returns [1] for [n <= 1] and
    the 32-bit reduction of [n!] otherwise, after [n - 1] loop bodies. *)
Lemma factorial_below_int32_max (fuel : nat) (n : Z) :
  Int32.in_range n → n < Int32.max_signed → n - 1 <= Z.of_nat fuel →
  Mathlib.factorial fuel n =
    Ret (if n <=? 1 then 1 else Int32.wrap (Z.of_nat (fact (Z.to_nat n)))).
Proof.
  intros Hr Hn Hfuel. unfold Mathlib.factorial.
  destruct (Z.leb_spec n 1) as [Hle|Hgt]; [reflexivity |].
  rewrite (factorial_loop_run n Hn (Z.to_nat (n - 1)));
    [| unfold Int32.min_signed, Int32.half_modulus; lia | lia | lia
     | unfold Int32.in_range, Int32.min_signed, Int32.max_signed,
         Int32.half_modulus; lia ].
  rewrite Z.mul_1_l, prod_range_from_2 by lia. reflexivity.
Qed.

Example factorial_0 : Mathlib.factorial 0 0 = Ret 1.
Proof. reflexivity. Qed.

Example factorial_1 : Mathlib.factorial 0 1 = Ret 1.
Proof. reflexivity. Qed.

Example factorial_negative : Mathlib.factorial 0 (-7) = Ret 1.
Proof. reflexivity. Qed.

Example factorial_5 : Mathlib.factorial 4 5 = Ret 120.
Proof. reflexivity. Qed.

Example factorial_13 : Mathlib.factorial 12 13 = Ret 1932053504.
Proof. vm_compute. reflexivity. Qed.

Example factorial_13_wrapped :
  prod_range 12 2 = 6227020800 ∧ Int32.wrap (prod_range 12 2) = 1932053504.
Proof. split; vm_compute; reflexivity. Qed.

(** With [n] the largest [int32_t] the loop test [i <= n] holds for every
    [int32_t] value of [i], so the loop never exits. *)
Lemma factorial_loop_int32_max (fuel : nat) (i r : Z) :
  Int32.in_range i →
  Mathlib.factorial_loop fuel Int32.max_signed i r = OutOfFuel.
Proof.
  revert i r. induction fuel as [|fuel IH]; intros i r Hi.
  - cbn [Mathlib.factorial_loop].
    replace (i <=? Int32.max_signed) with true
      by (symmetry; apply Z.leb_le, Hi). reflexivity.
  - cbn [Mathlib.factorial_loop].
    replace (i <=? Int32.max_signed) with true
      by (symmetry; apply Z.leb_le, Hi).
    apply IH, Int32_wrap_range.
Qed.

(** C4, at the largest [int32_t].  [factorial 2147483647] does not return:
    whatever the fuel, the run is still inside the loop when it is spent. *)
Theorem factorial_int32_max_diverges :
  ∀ fuel : nat, Mathlib.factorial fuel 2147483647 = OutOfFuel.
Proof.
  intros fuel. unfold Mathlib.factorial.
  change (2147483647 <=? 1) with false. cbv iota.
  apply (factorial_loop_int32_max fuel 2 1).
  vm_compute. split; discriminate.
Qed.

(** ** Callbacks: [apply_op] and [apply_operation] *)

(** C3.  With a callback [f] present, [apply_op a b f] makes exactly one
    call, [f a b], and returns its result; with the null function pointer
    it returns [0] and leaves the state, call record included, as it was.
    [apply_operation] behaves the same on a present callback but has no
    guard: on the null function pointer it calls through it, which is
    undefined, so the two differ there. *)
Theorem apply_op_guard_asymmetry {World : Type} (a b : Z) (s : cstate World) :
  Int32.in_range a → Int32.in_range b →
  (∀ (f : code World) r w,
      f a b (world s) = Ret (r, w) →
      Sample.apply_op a b (Some f) s = Ret (r, CState w (calls s ++ [(a, b)])))
  ∧ Sample.apply_op a b None s = Ret (0, s)
  ∧ (∀ (f : code World) r w,
        f a b (world s) = Ret (r, w) →
        Mathlib.apply_operation a b (Some f) s
        = Ret (r, CState w (calls s ++ [(a, b)])))
  ∧ (∀ f : code World,
        Mathlib.apply_operation a b (Some f) s = Sample.apply_op a b (Some f) s)
  ∧ Mathlib.apply_operation a b None s = Undefined
  ∧ Mathlib.apply_operation a b None s ≠ Sample.apply_op a b None s.
Proof.
  intros _ _. unfold Sample.apply_op, Mathlib.apply_operation, invoke.
  split; [| split; [| split; [| split; [| split]]]].
  - intros f r w Hf. rewrite Hf. reflexivity.
  - reflexivity.
  - intros f r w Hf. rewrite Hf. reflexivity.
  - reflexivity.
  - reflexivity.
  - discriminate.
Qed.

Lemma apply_op_guard_asymmetry_witness :
  Int32.in_range 2 ∧ Int32.in_range 3
  ∧ Sample.apply_op 2 3 (Some add_callback) (CState tt []) = Ret (5, CState tt [(2, 3)])
  ∧ Sample.apply_op 2 3 None (CState tt []) = Ret (0, CState tt [])
  ∧ Mathlib.apply_operation 2 3 None (CState tt []) = Undefined.
Proof.
  assert (Ha : Int32.in_range 2) by (vm_compute; split; discriminate).
  assert (Hb : Int32.in_range 3) by (vm_compute; split; discriminate).
  destruct (apply_op_guard_asymmetry 2 3 (CState tt []) Ha Hb)
    as (Hsome & Hnone & _ & _ & Hundef & _).
  split; [exact Ha |]. split; [exact Hb |]. split; [| split].
  - apply (Hsome add_callback 5 tt). reflexivity.
  - exact Hnone.
  - exact Hundef.
Defined.

(** ** The guard of [string_copy] *)

(** C2.  With a null [dest], a null [src] or [max_len = 0], [string_copy]
    returns at once and the heap, hence every byte of [dest], is what it
    was. *)
Theorem string_copy_guard (fuel : nat) (dest src : ptr) (max_len : Z)
    (m : gmap block (list byte)) :
  dest = Null ∨ src = Null ∨ max_len = 0 →
  Sample.string_copy fuel dest src max_len m = Ret m.
Proof.
  unfold Sample.string_copy. intros [-> | [-> | ->]].
  - reflexivity.
  - destruct dest; reflexivity.
  - destruct dest, src; reflexivity.
Qed.

Lemma string_copy_guard_witness :
  (Ptr 1 0 = Null ∨ Ptr 2 0 = Null ∨ 0 = 0)
  ∧ Sample.string_copy 0 (Ptr 1 0) (Ptr 2 0) 0
      (<[1%positive := list_byte_of_string "xyz"]>
         (<[2%positive := list_byte_of_string "hello" ++ [NUL]]> ∅))
    = Ret (<[1%positive := list_byte_of_string "xyz"]>
             (<[2%positive := list_byte_of_string "hello" ++ [NUL]]> ∅)).
Proof.
  assert (H : Ptr 1 0 = Null ∨ Ptr 2 0 = Null ∨ 0 = 0) by (right; right; reflexivity).
  split; [exact H |].
  apply (string_copy_guard 0 (Ptr 1 0) (Ptr 2 0) 0 _ H).
Defined.

(** ** The two modules side by side *)

Lemma array_sum_loop_agree (fuel : nat) (arr : ptr) (len i sum : Z)
    (m : gmap block (list Z)) :
  Mathlib.array_sum_loop fuel arr len i sum m
  = Sample.sum_array_loop fuel arr len i sum m.
Proof.
  revert i sum. induction fuel as [|fuel IH]; intros i sum; simpl.
  - reflexivity.
  - destruct (i <? len); [| reflexivity].
    destruct (load m (arr +ₚ i)); simpl; [apply IH | reflexivity | reflexivity].
Qed.

Lemma array_double_loop_agree (fuel : nat) (arr : ptr) (len i : Z)
    (m : gmap block (list Z)) :
  Mathlib.array_double_loop fuel arr len i m
  = Sample.double_array_loop fuel arr len i m.
Proof.
  revert i m. induction fuel as [|fuel IH]; intros i m; simpl.
  - reflexivity.
  - destruct (i <? len); [| reflexivity].
    destruct (load m (arr +ₚ i)) as [v| |]; simpl; [| reflexivity | reflexivity].
    destruct (store m (arr +ₚ i) (Int32.mul v 2)); simpl;
      [apply IH | reflexivity | reflexivity].
Qed.

(** C9.  The paired functions of [mathlib.c] and [sample.c] agree on every
    input: [add] with [add_numbers], [multiply] with [multiply_numbers],
    [array_sum] with [sum_array], [array_double] with [double_array] (same
    final heap), and [point_add] with [vec2_add] on equal components. *)
Theorem paired_functions_agree :
  (∀ a b, Mathlib.add a b = Sample.add_numbers a b)
  ∧ (∀ a b, Mathlib.multiply a b = Sample.multiply_numbers a b)
  ∧ (∀ fuel arr len m,
        Mathlib.array_sum fuel arr len m = Sample.sum_array fuel arr len m)
  ∧ (∀ fuel arr len m,
        Mathlib.array_double fuel arr len m = Sample.double_array fuel arr len m)
  ∧ (∀ (a b : Mathlib.Point) (a' b' : Sample.Vec2),
        Mathlib.x a = Sample.x a' → Mathlib.y a = Sample.y a' →
        Mathlib.x b = Sample.x b' → Mathlib.y b = Sample.y b' →
        Mathlib.x (Mathlib.point_add a b) = Sample.x (Sample.vec2_add a' b')
        ∧ Mathlib.y (Mathlib.point_add a b) = Sample.y (Sample.vec2_add a' b')).
Proof.
  split; [reflexivity |]. split; [reflexivity |].
  split; [intros; apply array_sum_loop_agree |].
  split; [intros; apply array_double_loop_agree |].
  intros a b a' b' Hax Hay Hbx Hby. simpl.
  rewrite Hax, Hay, Hbx, Hby. split; reflexivity.
Qed.

Lemma paired_functions_agree_witness :
  Mathlib.x (Mathlib.point_add (Mathlib.MkPoint 1 2) (Mathlib.MkPoint 3 4))
  = Sample.x (Sample.vec2_add (Sample.MkVec2 1 2) (Sample.MkVec2 3 4))
  ∧ Mathlib.y (Mathlib.point_add (Mathlib.MkPoint 1 2) (Mathlib.MkPoint 3 4))
    = Sample.y (Sample.vec2_add (Sample.MkVec2 1 2) (Sample.MkVec2 3 4)).
Proof.
  destruct paired_functions_agree as (_ & _ & _ & _ & Hpoint).
  apply (Hpoint (Mathlib.MkPoint 1 2) (Mathlib.MkPoint 3 4)
           (Sample.MkVec2 1 2) (Sample.MkVec2 3 4));
    reflexivity.
Defined.

(** ** Points and vectors *)

Example vec2_add_1_2_3_4 :
  Sample.vec2_add (Sample.MkVec2 1 2) (Sample.MkVec2 3 4) = Sample.MkVec2 4 6.
Proof. reflexivity. Qed.

Example vec2_dot_orthogonal :
  Sample.vec2_dot (Sample.MkVec2 1 0) (Sample.MkVec2 0 1) = 0.
Proof. reflexivity. Qed.

Example point_distance_squared_3_4 :
  Mathlib.point_distance_squared (Mathlib.MkPoint 0 0) (Mathlib.MkPoint 3 4) = 25.
Proof. reflexivity. Qed.

(** ** Memory accesses inside a block *)

Section HeapFacts.
Context {A : Type}.
Implicit Types (m : gmap block (list A)) (pre post mid : list A).

Lemma load_middle m b pre post v ofs :
  m !! b = Some (pre ++ v :: post) → ofs = Z.of_nat (length pre) →
  load m (Ptr b ofs) = Ret v.
Proof.
  intros Hb ->. unfold load.
  replace (Z.of_nat (length pre) <? 0) with false by (symmetry; apply Z.ltb_ge; lia).
  rewrite Hb, Nat2Z.id, list_lookup_middle by reflexivity. reflexivity.
Qed.

Lemma store_middle m b pre post v w ofs :
  m !! b = Some (pre ++ v :: post) → ofs = Z.of_nat (length pre) →
  store m (Ptr b ofs) w = Ret (<[b := pre ++ w :: post]> m).
Proof.
  intros Hb ->. unfold store.
  replace (Z.of_nat (length pre) <? 0) with false by (symmetry; apply Z.ltb_ge; lia).
  rewrite Hb, Nat2Z.id.
  replace (Z.of_nat (length pre) <? Z.of_nat (length (pre ++ v :: post))) with true
    by (symmetry; apply Z.ltb_lt; rewrite length_app; simpl; lia).
  replace (length pre) with (length pre + 0)%nat at 1 by lia.
  rewrite insert_app_r. reflexivity.
Qed.

Lemma lookup_splice_inside pre mid post (i : nat) :
  (i < length mid)%nat → (pre ++ mid ++ post) !! (length pre + i)%nat = mid !! i.
Proof.
  intros Hi. rewrite lookup_app_r by lia.
  replace (length pre + i - length pre)%nat with i by lia.
  apply lookup_app_l, Hi.
Qed.

Lemma lookup_splice_outside pre mid mid' post (j : nat) :
  length mid = length mid' →
  (j < length pre ∨ length pre + length mid ≤ j)%nat →
  (pre ++ mid' ++ post) !! j = (pre ++ mid ++ post) !! j.
Proof.
  intros Hlen [Hj | Hj].
  - rewrite !lookup_app_l by lia. reflexivity.
  - rewrite !(lookup_app_r pre) by lia.
    rewrite !lookup_app_r by lia. rewrite Hlen. reflexivity.
Qed.
End HeapFacts.

(** ** [array_double] and [double_array] *)

(** The loop at index [i = length done], with the cells [rest] still to
    double, doubles each of them and stops. *)
Lemma array_double_loop_run (b : block) (pre post : list Z) (len : Z) :
  len < USize.modulus →
  ∀ (rest done : list Z) (fuel : nat) (m : gmap block (list Z)),
    m !! b = Some (pre ++ done ++ rest ++ post) →
    Z.of_nat (length done) + Z.of_nat (length rest) = len →
    (length rest ≤ fuel)%nat →
    Mathlib.array_double_loop fuel (Ptr b (Z.of_nat (length pre))) len
      (Z.of_nat (length done)) m
    = Ret (<[b := pre ++ done ++ map (λ v, Int32.mul v 2) rest ++ post]> m).
Proof.
  intros Hlen. induction rest as [|v rest IH]; intros done fuel m Hb Hsum Hfuel.
  - simpl in Hsum.
    assert (Hcond : (Z.of_nat (length done) <? len) = false) by (apply Z.ltb_ge; lia).
    destruct fuel; cbn [Mathlib.array_double_loop]; rewrite Hcond; simpl;
      rewrite insert_id by exact Hb; reflexivity.
  - destruct fuel as [|fuel]; [simpl in Hfuel; lia |].
    simpl in Hsum, Hfuel.
    assert (Hcond : (Z.of_nat (length done) <? len) = true) by (apply Z.ltb_lt; lia).
    cbn [Mathlib.array_double_loop]. rewrite Hcond. cbn [ptr_add].
    assert (Hcell : m !! b = Some ((pre ++ done) ++ v :: rest ++ post)).
    { rewrite Hb. f_equal. rewrite <- app_assoc. reflexivity. }
    rewrite (load_middle m b (pre ++ done) (rest ++ post) v)
      by (try exact Hcell; rewrite length_app; lia).
    cbn [mbind outcome_bind].
    rewrite (store_middle m b (pre ++ done) (rest ++ post) v)
      by (try exact Hcell; rewrite length_app; lia).
    cbn [mbind outcome_bind].
    replace (USize.add (Z.of_nat (length done)) 1)
      with (Z.of_nat (length (done ++ [Int32.mul v 2]))).
    2:{ rewrite length_app. simpl. unfold USize.add.
        rewrite USize_wrap_id by (unfold USize.in_range; lia). lia. }
    rewrite (IH (done ++ [Int32.mul v 2]) fuel).
    + rewrite insert_insert_eq. f_equal. f_equal. f_equal.
      rewrite <- app_assoc. reflexivity.
    + rewrite lookup_insert_eq. f_equal. rewrite <- !app_assoc. reflexivity.
    + rewrite length_app. simpl. lia.
    + lia.
Qed.

(** C6.  Called on a pointer to the [length arr] cells [arr] of a block
    that holds [pre] before them and [post] after them, [array_double]
    (and [double_array]) returns with every cell of [arr] replaced by the
    32-bit reduction of twice its value, and with [pre], [post], the
    length of the block and every other block as they were; with no cell
    to double the heap is unchanged. *)
Theorem array_double_in_place (fuel : nat) (b : block) (pre arr post : list Z)
    (m : gmap block (list Z)) :
  m !! b = Some (pre ++ arr ++ post) →
  Z.of_nat (length arr) < USize.modulus →
  (length arr ≤ fuel)%nat →
  let doubled := map (λ v, Int32.wrap (2 * v)) arr in
  let m' := <[b := pre ++ doubled ++ post]> m in
  Mathlib.array_double fuel (Ptr b (Z.of_nat (length pre))) (Z.of_nat (length arr)) m
  = Ret m'
  ∧ Sample.double_array fuel (Ptr b (Z.of_nat (length pre))) (Z.of_nat (length arr)) m
    = Ret m'
  ∧ length (pre ++ doubled ++ post) = length (pre ++ arr ++ post)
  ∧ (∀ (i : nat) v, arr !! i = Some v →
       (pre ++ doubled ++ post) !! (length pre + i)%nat = Some (Int32.wrap (2 * v)))
  ∧ (∀ j : nat, (j < length pre ∨ length pre + length arr ≤ j)%nat →
       (pre ++ doubled ++ post) !! j = (pre ++ arr ++ post) !! j)
  ∧ (∀ b', b' ≠ b → m' !! b' = m !! b')
  ∧ (arr = [] → m' = m).
Proof.
  intros Hb Hlen Hfuel doubled m'.
  assert (Hrun : Mathlib.array_double fuel (Ptr b (Z.of_nat (length pre)))
                   (Z.of_nat (length arr)) m = Ret m').
  { unfold Mathlib.array_double.
    pose proof (array_double_loop_run b pre post (Z.of_nat (length arr)) Hlen
                  arr [] fuel m Hb ltac:(simpl; lia) Hfuel) as Hloop.
    cbn [length app] in Hloop. change (Z.of_nat 0) with 0 in Hloop.
    rewrite Hloop. subst m' doubled. do 4 f_equal.
    apply map_ext. intros v. unfold Int32.mul. f_equal. lia. }
  assert (Hlength : length doubled = length arr) by apply length_map.
  split; [exact Hrun |].
  split; [unfold Sample.double_array; rewrite <- array_double_loop_agree; exact Hrun |].
  split; [rewrite !length_app, Hlength; reflexivity |].
  split.
  { intros i v Hi. rewrite lookup_splice_inside.
    - subst doubled. rewrite list_lookup_fmap, Hi. reflexivity.
    - rewrite Hlength. apply (lookup_lt_Some _ _ _ Hi). }
  split; [intros j Hj; apply lookup_splice_outside; [symmetry; exact Hlength | exact Hj] |].
  split; [intros b' Hne; subst m'; apply lookup_insert_ne; congruence |].
  intros ->. subst m' doubled. simpl. apply insert_id. exact Hb.
Qed.

Lemma array_double_in_place_witness :
  Mathlib.array_double 3 (Ptr 1 0) 3 (<[1%positive := [1; 2; 3]]> ∅)
  = Ret (<[1%positive := [2; 4; 6]]> ∅).
Proof.
  pose proof (array_double_in_place 3 1%positive [] [1; 2; 3] []
                (<[1%positive := [1; 2; 3]]> ∅)) as H.
  destruct H as (Hrun & _).
  - reflexivity.
  - reflexivity.
  - simpl. lia.
  - refine (eq_trans Hrun _). reflexivity.
Defined.

Example array_double_frame_and_overflow :
  Mathlib.array_double 2 (Ptr 1 1) 2 (<[1%positive := [7; 2147483647; -5; 9]]> ∅)
  = Ret (<[1%positive := [7; -2; -10; 9]]> ∅).
Proof. vm_compute. reflexivity. Qed.

Example array_double_no_cells (m : gmap block (list Z)) (arr : ptr) (fuel : nat) :
  Mathlib.array_double fuel arr 0 m = Ret m.
Proof. destruct fuel; reflexivity. Qed.

(** ** [array_sum] *)

Example array_sum_empty (m : gmap block (list Z)) (arr : ptr) (fuel : nat) :
  Mathlib.array_sum fuel arr 0 m = Ret 0.
Proof. destruct fuel; reflexivity. Qed.

Example array_sum_1_2_3 :
  Mathlib.array_sum 3 (Ptr 1 0) 3 (<[1%positive := [1; 2; 3]]> ∅) = Ret 6.
Proof. vm_compute. reflexivity. Qed.

(** ** Terminator scans: [strlen], [string_length], [count_chars] *)

Lemma is_nul_false (c : byte) : c ≠ NUL → is_nul c = false.
Proof.
  intros Hc. unfold is_nul. destruct (Byte.eqb c NUL) eqn:E; [| reflexivity].
  apply Byte.byte_dec_bl in E. contradiction.
Qed.

Lemma cstr_len_terminated (s post : list byte) :
  NUL ∉ s → cstr_len (s ++ NUL :: post) = Some (length s).
Proof.
  induction s as [|c s IH]; intros Hs.
  - reflexivity.
  - apply not_elem_of_cons in Hs as [Hc Hs]. simpl.
    rewrite is_nul_false by congruence. rewrite IH by exact Hs. reflexivity.
Qed.

Lemma strlen_terminated (m : gmap block (list byte)) (b : block)
    (pre s post : list byte) :
  m !! b = Some (pre ++ s ++ NUL :: post) → NUL ∉ s →
  strlen m (Ptr b (Z.of_nat (length pre))) = Ret (Z.of_nat (length s)).
Proof.
  intros Hb Hs. unfold strlen.
  replace (Z.of_nat (length pre) <? 0) with false by (symmetry; apply Z.ltb_ge; lia).
  rewrite Hb, Nat2Z.id, drop_app_length, cstr_len_terminated by exact Hs.
  reflexivity.
Qed.

Lemma string_length_loop_run (b : block) (pre post : list byte)
    (m : gmap block (list byte)) :
  ∀ (rest done : list byte) (fuel : nat),
    m !! b = Some (pre ++ done ++ rest ++ NUL :: post) →
    NUL ∉ rest →
    Z.of_nat (length done) + Z.of_nat (length rest) < USize.modulus →
    (length rest ≤ fuel)%nat →
    Sample.string_length_loop fuel (Ptr b (Z.of_nat (length pre)))
      (Z.of_nat (length done)) m
    = Ret (Z.of_nat (length done) + Z.of_nat (length rest)).
Proof.
  induction rest as [|c rest IH]; intros done fuel Hb Hnul Hlen Hfuel.
  - assert (Hload : load m (Ptr b (Z.of_nat (length pre)) +ₚ Z.of_nat (length done))
                    = Ret NUL).
    { apply (load_middle m b (pre ++ done) post).
      - rewrite Hb. f_equal. rewrite <- app_assoc. reflexivity.
      - rewrite length_app. lia. }
    destruct fuel; cbn [Sample.string_length_loop]; rewrite Hload; simpl;
      f_equal; lia.
  - destruct fuel as [|fuel]; [simpl in Hfuel; lia |].
    apply not_elem_of_cons in Hnul as [Hc Hnul]. simpl in Hlen, Hfuel.
    assert (Hload : load m (Ptr b (Z.of_nat (length pre)) +ₚ Z.of_nat (length done))
                    = Ret c).
    { apply (load_middle m b (pre ++ done) (rest ++ NUL :: post)).
      - rewrite Hb. f_equal. rewrite <- app_assoc. reflexivity.
      - rewrite length_app. lia. }
    cbn [Sample.string_length_loop]. rewrite Hload. cbn [mbind outcome_bind].
    rewrite is_nul_false by congruence.
    replace (USize.add (Z.of_nat (length done)) 1)
      with (Z.of_nat (length (done ++ [c]))).
    2:{ rewrite length_app. simpl. unfold USize.add.
        rewrite USize_wrap_id by (unfold USize.in_range; lia). lia. }
    rewrite (IH (done ++ [c]) fuel).
    + f_equal. rewrite length_app. simpl. lia.
    + rewrite Hb. f_equal. rewrite <- !app_assoc. reflexivity.
    + exact Hnul.
    + rewrite length_app. simpl. lia.
    + lia.
Qed.

Lemma count_chars_loop_run (b : block) (target : byte) (post : list byte)
    (m : gmap block (list byte)) :
  ∀ (rest pre : list byte) (fuel : nat) (count : Z),
    m !! b = Some (pre ++ rest ++ NUL :: post) →
    NUL ∉ rest →
    0 <= count → count + Z.of_nat (length rest) < USize.modulus →
    (length rest ≤ fuel)%nat →
    Mathlib.count_chars_loop fuel (Ptr b (Z.of_nat (length pre))) target count m
    = Ret (count + Z.of_nat (occurrences target rest)).
Proof.
  induction rest as [|c rest IH]; intros pre fuel count Hb Hnul Hcount Hlen Hfuel.
  - rewrite (app_nil_l (NUL :: post)) in Hb.
    destruct fuel; cbn [Mathlib.count_chars_loop];
      rewrite (load_middle m b pre post NUL) by (exact Hb || reflexivity);
      simpl; f_equal; lia.
  - destruct fuel as [|fuel]; [simpl in Hfuel; lia |].
    apply not_elem_of_cons in Hnul as [Hc Hnul]. simpl in Hlen, Hfuel.
    cbn [Mathlib.count_chars_loop].
    rewrite (load_middle m b pre (rest ++ NUL :: post) c) by (exact Hb || reflexivity).
    cbn [mbind outcome_bind]. rewrite is_nul_false by congruence.
    cbn [ptr_add].
    replace (Z.of_nat (length pre) + 1) with (Z.of_nat (length (pre ++ [c])))
      by (rewrite length_app; simpl; lia).
    assert (Hocc : 0 <= Z.of_nat (occurrences target rest) <= Z.of_nat (length rest)).
    { clear. induction rest as [|d rest IHr]; simpl; [lia |].
      destruct (Byte.eqb d target); lia. }
    rewrite (IH (pre ++ [c]) fuel).
    + f_equal. cbn [occurrences]. destruct (Byte.eqb c target).
      * unfold USize.add. rewrite USize_wrap_id by (unfold USize.in_range; lia). lia.
      * lia.
    + rewrite Hb. f_equal. rewrite <- app_assoc. reflexivity.
    + exact Hnul.
    + destruct (Byte.eqb c target); [| exact Hcount].
      unfold USize.add. rewrite USize_wrap_id by (unfold USize.in_range; lia). lia.
    + destruct (Byte.eqb c target); [| lia].
      unfold USize.add. rewrite USize_wrap_id by (unfold USize.in_range; lia). lia.
    + lia.
Qed.

(** C7.  [string_length] returns [0] on the null pointer and, on a pointer
    to the bytes [s] followed by a terminator, the number of bytes of [s].
    [count_chars] runs the same scan on such a pointer, counting the bytes
    equal to [target], but has no guard: on the null pointer it reads
    through it, which is undefined, and so does not return [0]. *)
Theorem string_length_guard_count_chars_none (fuel : nat) (b : block)
    (pre s post : list byte) (target : byte) (m : gmap block (list byte)) :
  m !! b = Some (pre ++ s ++ NUL :: post) →
  NUL ∉ s →
  Z.of_nat (length s) < USize.modulus →
  (length s ≤ fuel)%nat →
  Sample.string_length fuel Null m = Ret 0
  ∧ Sample.string_length fuel (Ptr b (Z.of_nat (length pre))) m
    = Ret (Z.of_nat (length s))
  ∧ Mathlib.count_chars fuel (Ptr b (Z.of_nat (length pre))) target m
    = Ret (Z.of_nat (occurrences target s))
  ∧ Mathlib.count_chars fuel Null target m = Undefined
  ∧ Mathlib.count_chars fuel Null target m ≠ Ret 0.
Proof.
  intros Hb Hs Hlen Hfuel.
  split; [reflexivity |]. split; [| split; [| split]].
  - unfold Sample.string_length. cbn [is_null].
    apply (string_length_loop_run b pre post m s [] fuel); simpl; auto.
  - unfold Mathlib.count_chars.
    rewrite (count_chars_loop_run b target post m s pre fuel 0); auto; lia.
  - destruct fuel; reflexivity.
  - destruct fuel; discriminate.
Qed.

Lemma string_length_guard_count_chars_none_witness :
  Sample.string_length 0 Null (<[1%positive := [NUL]]> ∅) = Ret 0
  ∧ Sample.string_length 0 (Ptr 1 0) (<[1%positive := [NUL]]> ∅) = Ret 0
  ∧ Mathlib.count_chars 0 Null "a" (<[1%positive := [NUL]]> ∅) = Undefined.
Proof.
  destruct (string_length_guard_count_chars_none 0 1%positive [] [] [] "a"
              (<[1%positive := [NUL]]> ∅))
    as (Hnull & Hempty & _ & Hcount & _).
  - reflexivity.
  - apply not_elem_of_nil.
  - reflexivity.
  - reflexivity.
  - split; [exact Hnull |]. split; [exact Hempty | exact Hcount].
Defined.

Example string_length_hello :
  Sample.string_length 5 (Ptr 1 0)
    (<[1%positive := list_byte_of_string "hello" ++ [NUL]]> ∅) = Ret 5.
Proof. vm_compute. reflexivity. Qed.

Example count_chars_banana :
  Mathlib.count_chars 6 (Ptr 1 0) "a"
    (<[1%positive := list_byte_of_string "banana" ++ [NUL]]> ∅) = Ret 3.
Proof. vm_compute. reflexivity. Qed.

(** ** [reverse_string] *)

(** Equality of two cell lists up to the bracketing of [++]. *)
Ltac norm_app :=
  repeat (rewrite <- !app_assoc || rewrite <- !app_comm_cons || (progress (cbn [app]))).
Ltac same_cells := norm_app; reflexivity.

Lemma list_snoc_inv {A : Type} (l : list A) :
  l ≠ [] → ∃ l' y, l = l' ++ [y].
Proof.
  intros Hl. destruct (exists_last Hl) as (l' & y & ->). eauto.
Qed.

(** The loop at index [i = length front], having already swapped [front]
    and [back], reverses the middle part in place. *)
Lemma reverse_string_loop_run (b : block) (pre post : list byte) (len : Z) :
  len < USize.modulus →
  ∀ (k : nat) (mid front back : list byte) (fuel : nat)
    (m : gmap block (list byte)),
    (length mid = 2 * k ∨ length mid = 2 * k + 1)%nat →
    length front = length back →
    Z.of_nat (length front + length mid + length back) = len →
    m !! b = Some (pre ++ front ++ mid ++ back ++ NUL :: post) →
    (k ≤ fuel)%nat →
    Mathlib.reverse_string_loop fuel (Ptr b (Z.of_nat (length pre))) len
      (Z.of_nat (length front)) m
    = Ret (<[b := pre ++ front ++ reverse mid ++ back ++ NUL :: post]> m).
Proof.
  intros Hmax. induction k as [|k IH];
    intros mid front back fuel m Hmid Hfb Hlen Hb Hfuel.
  - assert (Hcond : (Z.of_nat (length front) <? len / 2) = false).
    { apply Z.ltb_ge.
      pose proof (Z.div_mod len 2 ltac:(lia)).
      pose proof (Z.mod_pos_bound len 2 ltac:(lia)). lia. }
    assert (Hrev : reverse mid = mid).
    { destruct mid as [|c [|d mid]]; [reflexivity | reflexivity | simpl in Hmid; lia]. }
    destruct fuel; cbn [Mathlib.reverse_string_loop]; rewrite Hcond, Hrev;
      rewrite insert_id by exact Hb; reflexivity.
  - destruct fuel as [|fuel]; [lia |].
    destruct mid as [|x mid]; [simpl in Hmid; lia |].
    destruct (list_snoc_inv mid) as (mid' & y & ->).
    { intros ->. simpl in Hmid. lia. }
    rewrite length_cons, length_app in Hmid, Hlen. simpl in Hmid, Hlen.
    assert (Hcond : (Z.of_nat (length front) <? len / 2) = true).
    { apply Z.ltb_lt.
      pose proof (Z.div_mod len 2 ltac:(lia)).
      pose proof (Z.mod_pos_bound len 2 ltac:(lia)). lia. }
    assert (Hhi : USize.sub (USize.sub len 1) (Z.of_nat (length front))
                  = Z.of_nat (length (front ++ x :: mid'))).
    { unfold USize.sub.
      rewrite (USize_wrap_id (len - 1)) by (unfold USize.in_range; lia).
      rewrite USize_wrap_id by (unfold USize.in_range; lia).
      rewrite length_app. simpl. lia. }
    cbn [Mathlib.reverse_string_loop]. rewrite Hcond, Hhi. cbn [ptr_add].
    set (lo := Z.of_nat (length pre) + Z.of_nat (length front)).
    set (hi := Z.of_nat (length pre) + Z.of_nat (length (front ++ x :: mid'))).
    assert (Hlo : lo = Z.of_nat (length (pre ++ front)))
      by (subst lo; rewrite length_app; lia).
    assert (Hhi' : hi = Z.of_nat (length (pre ++ front ++ x :: mid')))
      by (subst hi; rewrite !length_app; lia).
    assert (Hhi'' : hi = Z.of_nat (length (pre ++ front ++ y :: mid')))
      by (subst hi; rewrite !length_app; cbn [length]; lia).
    rewrite (load_middle m b (pre ++ front) (mid' ++ [y] ++ back ++ NUL :: post) x lo);
      [| rewrite Hb; f_equal; same_cells | exact Hlo].
    cbn [mbind outcome_bind].
    rewrite (load_middle m b (pre ++ front ++ x :: mid') (back ++ NUL :: post) y hi);
      [| rewrite Hb; f_equal; same_cells | exact Hhi'].
    cbn [mbind outcome_bind].
    rewrite (store_middle m b (pre ++ front) (mid' ++ [y] ++ back ++ NUL :: post) x y lo);
      [| rewrite Hb; f_equal; same_cells | exact Hlo].
    cbn [mbind outcome_bind].
    rewrite (store_middle _ b (pre ++ front ++ y :: mid') (back ++ NUL :: post) y x hi);
      [| rewrite lookup_insert_eq; f_equal; same_cells | exact Hhi''].
    cbn [mbind outcome_bind]. rewrite insert_insert_eq.
    replace (USize.add (Z.of_nat (length front)) 1)
      with (Z.of_nat (length (front ++ [y]))).
    2:{ rewrite length_app. simpl. unfold USize.add.
        rewrite USize_wrap_id by (unfold USize.in_range; lia). lia. }
    rewrite (IH mid' (front ++ [y]) (x :: back) fuel).
    + rewrite insert_insert_eq. f_equal. f_equal. f_equal.
      rewrite reverse_cons, reverse_app. same_cells.
    + lia.
    + rewrite length_app. simpl. lia.
    + rewrite length_app. simpl. lia.
    + rewrite lookup_insert_eq. f_equal. same_cells.
    + lia.
Qed.

(** A run of [reverse_string] on a terminated string [s] leaves the
    reversed bytes in the same cells. *)
Lemma reverse_string_run (fuel : nat) (b : block) (pre s post : list byte)
    (m : gmap block (list byte)) :
  m !! b = Some (pre ++ s ++ NUL :: post) →
  NUL ∉ s →
  Z.of_nat (length s) < USize.modulus →
  (length s / 2 ≤ fuel)%nat →
  Mathlib.reverse_string fuel (Ptr b (Z.of_nat (length pre))) m
  = Ret (<[b := pre ++ reverse s ++ NUL :: post]> m).
Proof.
  intros Hb Hs Hlen Hfuel. unfold Mathlib.reverse_string.
  rewrite (strlen_terminated m b pre s post Hb Hs). cbn [mbind outcome_bind].
  apply (reverse_string_loop_run b pre post (Z.of_nat (length s)) Hlen
           (length s / 2) s [] [] fuel m).
  - pose proof (Nat.div_mod_eq (length s) 2) as Hdm.
    pose proof (Nat.mod_upper_bound (length s) 2 ltac:(lia)). lia.
  - reflexivity.
  - simpl. f_equal. lia.
  - exact Hb.
  - exact Hfuel.
Qed.

(** C8.  On a pointer to the bytes [s] followed by a terminator,
    [reverse_string] returns with [s] replaced by its reversal: the byte
    that was at index [i] is at index [len - 1 - i], the terminator, the
    bytes after it, the bytes before the string and every other block are
    as they were, and a string of at most one byte is left as it was. *)
Theorem reverse_string_in_place (fuel : nat) (b : block)
    (pre s post : list byte) (m : gmap block (list byte)) :
  m !! b = Some (pre ++ s ++ NUL :: post) →
  NUL ∉ s →
  Z.of_nat (length s) < USize.modulus →
  (length s / 2 ≤ fuel)%nat →
  let cells' := pre ++ reverse s ++ NUL :: post in
  let m' := <[b := cells']> m in
  Mathlib.reverse_string fuel (Ptr b (Z.of_nat (length pre))) m = Ret m'
  ∧ (∀ (i : nat) c, s !! i = Some c →
       cells' !! (length pre + (length s - 1 - i))%nat = Some c)
  ∧ cells' !! (length pre + length s)%nat = Some NUL
  ∧ (∀ j : nat, (j < length pre ∨ length pre + length s ≤ j)%nat →
       cells' !! j = (pre ++ s ++ NUL :: post) !! j)
  ∧ (∀ b', b' ≠ b → m' !! b' = m !! b')
  ∧ ((length s ≤ 1)%nat → m' = m).
Proof.
  intros Hb Hs Hlen Hfuel cells' m'.
  split; [apply reverse_string_run; assumption |].
  split.
  { intros i c Hi. pose proof (lookup_lt_Some _ _ _ Hi) as Hlt.
    subst cells'. rewrite app_assoc, lookup_app_l by (rewrite length_app, length_reverse; lia).
    rewrite lookup_app_r by lia.
    replace (length pre + (length s - 1 - i) - length pre)%nat
      with (length s - 1 - i)%nat by lia.
    rewrite reverse_lookup by lia.
    replace (length s - S (length s - 1 - i))%nat with i by lia. exact Hi. }
  split.
  { subst cells'. rewrite app_assoc.
    apply list_lookup_middle. rewrite length_app, length_reverse. reflexivity. }
  split.
  { intros j Hj. subst cells'.
    apply (lookup_splice_outside pre s (reverse s) (NUL :: post) j);
      [rewrite length_reverse; reflexivity | exact Hj]. }
  split; [intros b' Hne; subst m'; apply lookup_insert_ne; congruence |].
  intros Hshort. subst m' cells'.
  assert (Hrev : reverse s = s).
  { destruct s as [|c [|d s]]; [reflexivity | reflexivity | simpl in Hshort; lia]. }
  rewrite Hrev. apply insert_id. exact Hb.
Qed.

Lemma reverse_string_in_place_witness :
  Mathlib.reverse_string 1 (Ptr 1 0)
    (<[1%positive := list_byte_of_string "abc" ++ [NUL]]> ∅)
  = Ret (<[1%positive := list_byte_of_string "cba" ++ [NUL]]> ∅).
Proof.
  destruct (reverse_string_in_place 1 1%positive [] (list_byte_of_string "abc") []
              (<[1%positive := list_byte_of_string "abc" ++ [NUL]]> ∅))
    as (Hrun & _).
  - reflexivity.
  - intros Hin. apply list_elem_of_In in Hin. simpl in Hin.
    repeat (destruct Hin as [Hin | Hin]; [discriminate Hin |]). exact Hin.
  - reflexivity.
  - simpl. lia.
  - refine (eq_trans Hrun _). reflexivity.
Defined.

Example reverse_string_ab :
  Mathlib.reverse_string 1 (Ptr 1 0)
    (<[1%positive := list_byte_of_string "ab" ++ [NUL]]> ∅)
  = Ret (<[1%positive := list_byte_of_string "ba" ++ [NUL]]> ∅).
Proof. vm_compute. reflexivity. Qed.

Example reverse_string_empty :
  Mathlib.reverse_string 0 (Ptr 1 0) (<[1%positive := [NUL]]> ∅)
  = Ret (<[1%positive := [NUL]]> ∅).
Proof. vm_compute. reflexivity. Qed.

Example reverse_string_keeps_rest :
  Mathlib.reverse_string 2 (Ptr 1 1)
    (<[1%positive := list_byte_of_string "_abcd" ++ [NUL] ++ list_byte_of_string "xy"]> ∅)
  = Ret (<[1%positive := list_byte_of_string "_dcba" ++ [NUL] ++ list_byte_of_string "xy"]> ∅).
Proof. vm_compute. reflexivity. Qed.

(** C10.  Two runs of [reverse_string] in a row on a terminated string
    give back the heap of the start, and the length that [strlen] reports
    is the same before, between and after them. *)
Theorem reverse_string_involution (fuel1 fuel2 : nat) (b : block)
    (pre s post : list byte) (m : gmap block (list byte)) :
  m !! b = Some (pre ++ s ++ NUL :: post) →
  NUL ∉ s →
  Z.of_nat (length s) < USize.modulus →
  (length s / 2 ≤ fuel1)%nat → (length s / 2 ≤ fuel2)%nat →
  ∃ m1,
    Mathlib.reverse_string fuel1 (Ptr b (Z.of_nat (length pre))) m = Ret m1
    ∧ Mathlib.reverse_string fuel2 (Ptr b (Z.of_nat (length pre))) m1 = Ret m
    ∧ strlen m (Ptr b (Z.of_nat (length pre))) = Ret (Z.of_nat (length s))
    ∧ strlen m1 (Ptr b (Z.of_nat (length pre))) = Ret (Z.of_nat (length s)).
Proof.
  intros Hb Hs Hlen Hfuel1 Hfuel2.
  set (m1 := <[b := pre ++ reverse s ++ NUL :: post]> m).
  assert (Hb1 : m1 !! b = Some (pre ++ reverse s ++ NUL :: post))
    by apply lookup_insert_eq.
  assert (Hs1 : NUL ∉ reverse s) by (rewrite elem_of_reverse; exact Hs).
  exists m1. split; [apply reverse_string_run; assumption |].
  split.
  - rewrite (reverse_string_run fuel2 b pre (reverse s) post m1 Hb1 Hs1)
      by (rewrite length_reverse; assumption).
    subst m1. rewrite insert_insert_eq, reverse_involutive.
    f_equal. apply insert_id. exact Hb.
  - split; [apply (strlen_terminated m b pre s post); assumption |].
    rewrite (strlen_terminated m1 b pre (reverse s) post Hb1 Hs1).
    rewrite length_reverse. reflexivity.
Qed.

Lemma reverse_string_involution_witness :
  ∃ m1,
    Mathlib.reverse_string 1 (Ptr 1 0)
      (<[1%positive := list_byte_of_string "abc" ++ [NUL]]> ∅) = Ret m1
    ∧ Mathlib.reverse_string 1 (Ptr 1 0) m1
      = Ret (<[1%positive := list_byte_of_string "abc" ++ [NUL]]> ∅).
Proof.
  destruct (reverse_string_involution 1 1 1%positive [] (list_byte_of_string "abc") []
              (<[1%positive := list_byte_of_string "abc" ++ [NUL]]> ∅))
    as (m1 & Hrun1 & Hrun2 & _).
  - reflexivity.
  - intros Hin. apply list_elem_of_In in Hin. simpl in Hin.
    repeat (destruct Hin as [Hin | Hin]; [discriminate Hin |]). exact Hin.
  - reflexivity.
  - simpl. lia.
  - simpl. lia.
  - exists m1. split; [exact Hrun1 | exact Hrun2].
Defined.

(** ** [string_copy] *)

Section Frame.
Context {A : Type}.
Implicit Types (m : gmap block (list A)).

Lemma unchanged_outside_refl b lo hi m : unchanged_outside b lo hi m m.
Proof. repeat split. Qed.

Lemma unchanged_outside_trans b lo1 hi1 lo2 hi2 lo hi m m1 m2 :
  unchanged_outside b lo1 hi1 m m1 →
  unchanged_outside b lo2 hi2 m1 m2 →
  lo <= lo1 → lo <= lo2 → hi1 <= hi → hi2 <= hi →
  unchanged_outside b lo hi m m2.
Proof.
  intros (Ho1 & Hs1 & Hc1) (Ho2 & Hs2 & Hc2) ? ? ? ?.
  split; [| split].
  - intros b' Hne. rewrite Ho2, Ho1 by exact Hne. reflexivity.
  - rewrite Hs2, Hs1. reflexivity.
  - intros j Hj. rewrite Hc2, Hc1 by lia. reflexivity.
Qed.

(** A store that succeeds changes one cell. *)
Lemma store_unchanged_outside m b ofs v m' :
  store m (Ptr b ofs) v = Ret m' →
  0 <= ofs
  ∧ unchanged_outside b ofs (ofs + 1) m m'
  ∧ cell m' b (Z.to_nat ofs) = Some v.
Proof.
  unfold store. destruct (Z.ltb_spec ofs 0) as [|Hofs]; [discriminate |].
  destruct (m !! b) as [cells|] eqn:Hb; [| discriminate].
  destruct (Z.ltb_spec ofs (Z.of_nat (length cells))) as [Hlt|]; [| discriminate].
  intros [= <-]. split; [exact Hofs |]. split; [split; [| split] |].
  - intros b' Hne. apply lookup_insert_ne. congruence.
  - unfold block_size. rewrite lookup_insert_eq, Hb. simpl.
    rewrite length_insert. reflexivity.
  - intros j Hj. unfold cell. rewrite lookup_insert_eq, Hb. simpl.
    apply list_lookup_insert_ne. lia.
  - unfold cell. rewrite lookup_insert_eq. simpl.
    apply list_lookup_insert_eq. lia.
Qed.
End Frame.

(** Whatever [dest] and [src] point to, a loop of [string_copy] that
    returns has stopped at an index [i'] of at most [max_len - 1] and has
    changed no cell but those of [dest] at the indices from [i] to
    [i' - 1]. *)
Lemma string_copy_loop_frame (bd : block) (od : Z) (src : ptr) (max_len : Z) :
  0 < max_len < USize.modulus →
  ∀ (fuel : nat) (i : Z) (m : gmap block (list byte)) i' m',
    0 <= i <= max_len - 1 →
    Sample.string_copy_loop fuel (Ptr bd od) src max_len i m = Ret (i', m') →
    i <= i' <= max_len - 1 ∧ unchanged_outside bd (od + i) (od + i') m m'.
Proof.
  intros Hmax.
  assert (Hsub : USize.sub max_len 1 = max_len - 1)
    by (apply USize_wrap_id; unfold USize.in_range; lia).
  induction fuel as [|fuel IH]; intros i m i' m' Hi;
    cbn [Sample.string_copy_loop]; rewrite Hsub;
    (destruct (Z.ltb_spec i (max_len - 1)) as [Hlt|Hge];
     [| intros [= <- <-]; split; [lia | apply unchanged_outside_refl]]);
    (destruct (load m (src +ₚ i)) as [c| |]; cbn [mbind outcome_bind];
     [| discriminate | discriminate]);
    (destruct (is_nul c);
     [intros [= <- <-]; split; [lia | apply unchanged_outside_refl] |]).
  - discriminate.
  - destruct (store m (Ptr bd od +ₚ i) c) as [m1| |] eqn:Hstore;
      cbn [mbind outcome_bind]; [| discriminate | discriminate].
    assert (Hnext : USize.add i 1 = i + 1)
      by (apply USize_wrap_id; unfold USize.in_range; lia).
    rewrite Hnext. intros Hrun.
    apply IH in Hrun as [Hi' Hframe]; [| lia].
    apply store_unchanged_outside in Hstore as (_ & Hcell & _).
    split; [lia |].
    apply (unchanged_outside_trans bd _ _ _ _ _ _ m m1 m' Hcell Hframe); lia.
Qed.

(** With [src] a terminated string in a block other than that of [dest],
    the loop at index [i = length done] copies [k] more bytes, where [k]
    is where it has to stop: at the terminator or at [max_len - 1]. *)
Lemma string_copy_loop_run (bd bs : block) (preD preS postS : list byte)
    (max_len : Z) :
  bd ≠ bs → 0 < max_len < USize.modulus →
  ∀ (k : nat) (rest done room : list byte) (fuel : nat)
    (m : gmap block (list byte)),
    m !! bs = Some (preS ++ done ++ rest ++ NUL :: postS) →
    NUL ∉ rest →
    m !! bd = Some (preD ++ done ++ room) →
    (k ≤ length rest)%nat → (k ≤ length room)%nat →
    Z.of_nat (length done) + Z.of_nat k <= max_len - 1 →
    (k = length rest ∨ Z.of_nat (length done) + Z.of_nat k = max_len - 1) →
    (k ≤ fuel)%nat →
    Sample.string_copy_loop fuel (Ptr bd (Z.of_nat (length preD)))
      (Ptr bs (Z.of_nat (length preS))) max_len (Z.of_nat (length done)) m
    = Ret (Z.of_nat (length done) + Z.of_nat k,
           <[bd := preD ++ done ++ take k rest ++ drop k room]> m).
Proof.
  intros Hne Hmax.
  assert (Hsub : USize.sub max_len 1 = max_len - 1)
    by (apply USize_wrap_id; unfold USize.in_range; lia).
  induction k as [|k IH];
    intros rest done room fuel m Hbs Hnul Hbd Hrest Hroom Hbound Hstop Hfuel.
  - assert (Hsame : <[bd := preD ++ done ++ take 0 rest ++ drop 0 room]> m = m)
      by (apply insert_id; exact Hbd).
    rewrite Hsame, Z.add_0_r.
    destruct (Z.ltb_spec (Z.of_nat (length done)) (max_len - 1)) as [Hlt|Hge].
    + destruct rest as [|c rest]; [| destruct Hstop as [Hstop|Hstop]; simpl in Hstop; lia].
      assert (Hload : load m (Ptr bs (Z.of_nat (length preS)) +ₚ Z.of_nat (length done))
                      = Ret NUL).
      { apply (load_middle m bs (preS ++ done) postS).
        - rewrite Hbs. f_equal. same_cells.
        - rewrite length_app. lia. }
      destruct fuel; cbn [Sample.string_copy_loop]; rewrite Hsub;
        (replace (Z.of_nat (length done) <? max_len - 1) with true
          by (symmetry; apply Z.ltb_lt; exact Hlt));
        rewrite Hload; reflexivity.
    + destruct fuel; cbn [Sample.string_copy_loop]; rewrite Hsub;
        (replace (Z.of_nat (length done) <? max_len - 1) with false
          by (symmetry; apply Z.ltb_ge; exact Hge));
        reflexivity.
  - destruct fuel as [|fuel]; [lia |].
    destruct rest as [|c rest]; [simpl in Hrest; lia |].
    destruct room as [|r room]; [simpl in Hroom; lia |].
    apply not_elem_of_cons in Hnul as [Hc Hnul]. cbn [length] in Hrest, Hroom, Hstop.
    assert (Hload : load m (Ptr bs (Z.of_nat (length preS)) +ₚ Z.of_nat (length done))
                    = Ret c).
    { apply (load_middle m bs (preS ++ done) (rest ++ NUL :: postS)).
      - rewrite Hbs. f_equal. same_cells.
      - rewrite length_app. lia. }
    assert (Hstore : store m (Ptr bd (Z.of_nat (length preD)) +ₚ Z.of_nat (length done)) c
                     = Ret (<[bd := (preD ++ done) ++ c :: room]> m)).
    { apply (store_middle m bd (preD ++ done) room r).
      - rewrite Hbd. f_equal. same_cells.
      - rewrite length_app. lia. }
    cbn [Sample.string_copy_loop]. rewrite Hsub.
    replace (Z.of_nat (length done) <? max_len - 1) with true
      by (symmetry; apply Z.ltb_lt; lia).
    rewrite Hload. cbn [mbind outcome_bind]. rewrite is_nul_false by congruence.
    rewrite Hstore. cbn [mbind outcome_bind].
    replace (USize.add (Z.of_nat (length done)) 1)
      with (Z.of_nat (length (done ++ [c]))).
    2:{ rewrite length_app. simpl. unfold USize.add.
        rewrite USize_wrap_id by (unfold USize.in_range; lia). lia. }
    rewrite (IH rest (done ++ [c]) room fuel).
    + rewrite insert_insert_eq. f_equal. f_equal.
      * rewrite length_app. simpl. lia.
      * f_equal. cbn [take drop]. same_cells.
    + rewrite lookup_insert_ne by congruence. rewrite Hbs. f_equal. same_cells.
    + exact Hnul.
    + rewrite lookup_insert_eq. f_equal. same_cells.
    + lia.
    + lia.
    + rewrite length_app. simpl. lia.
    + rewrite length_app. simpl. lia.
    + lia.
Qed.

(** C1.  For [0 < max_len] and non-null [dest] and [src]:
    - whatever the two pointers point to, a run of [string_copy] that
      returns has written a terminator at some index [n <= max_len - 1]
      of [dest] and has changed no cell but those of [dest] at the indices
      [0 .. n], hence none at an index [>= max_len];
    - when [src] is a terminated string [s] in another block than [dest]
      and [dest] has room, the run returns with the first
      [n = min (max_len - 1) (length s)] bytes of [s] in [dest[0 .. n-1]],
      a terminator in [dest[n]], and everything else as it was. *)
Theorem string_copy_bounded (fuel : nat) (bd bs : block) (od os max_len : Z)
    (m : gmap block (list byte)) :
  0 < max_len < USize.modulus →
  (∀ m', Sample.string_copy fuel (Ptr bd od) (Ptr bs os) max_len m = Ret m' →
     ∃ n, 0 <= n <= max_len - 1
          ∧ unchanged_outside bd od (od + n + 1) m m'
          ∧ unchanged_outside bd od (od + max_len) m m'
          ∧ cell m' bd (Z.to_nat (od + n)) = Some NUL)
  ∧ (∀ preD room preS s postS,
       bd ≠ bs →
       m !! bd = Some (preD ++ room) → od = Z.of_nat (length preD) →
       m !! bs = Some (preS ++ s ++ NUL :: postS) → os = Z.of_nat (length preS) →
       NUL ∉ s →
       let n := (Z.to_nat (max_len - 1) `min` length s)%nat in
       (n < length room)%nat → (n ≤ fuel)%nat →
       Sample.string_copy fuel (Ptr bd od) (Ptr bs os) max_len m
       = Ret (<[bd := preD ++ take n s ++ NUL :: drop (S n) room]> m)).
Proof.
  intros Hmax.
  assert (Hguard : (max_len =? 0) = false) by (apply Z.eqb_neq; lia).
  split.
  - intros m'. unfold Sample.string_copy. cbn [is_null orb]. rewrite Hguard.
    destruct (Sample.string_copy_loop fuel (Ptr bd od) (Ptr bs os) max_len 0 m)
      as [[n m1]| |] eqn:Hloop; cbn [mbind outcome_bind]; [| discriminate | discriminate].
    apply (string_copy_loop_frame bd od (Ptr bs os) max_len Hmax) in Hloop
      as [Hn Hframe]; [| lia].
    rewrite Z.add_0_r in Hframe. cbn [ptr_add]. intros Hstore.
    apply store_unchanged_outside in Hstore as (_ & Hcell & Hnul).
    exists n. split; [lia |].
    assert (Hexact : unchanged_outside bd od (od + n + 1) m m')
      by (apply (unchanged_outside_trans bd _ _ _ _ _ _ m m1 m' Hframe Hcell); lia).
    split; [exact Hexact |]. split; [| exact Hnul].
    apply (unchanged_outside_trans bd _ _ _ _ _ _ m m m'
             (unchanged_outside_refl bd od od m) Hexact); lia.
  - intros preD room preS s postS Hne Hbd -> Hbs -> Hs n Hroom Hfuel.
    assert (Hn1 : (n ≤ length s)%nat) by (subst n; lia).
    assert (Hn2 : Z.of_nat n <= max_len - 1) by (subst n; lia).
    assert (Hn3 : n = length s ∨ Z.of_nat n = max_len - 1) by (subst n; lia).
    clearbody n.
    remember (drop n room) as tail eqn:Hdrop. symmetry in Hdrop.
    destruct tail as [|r room'].
    { apply (f_equal length) in Hdrop. rewrite length_drop in Hdrop. simpl in Hdrop. lia. }
    assert (Htail : drop (S n) room = room').
    { replace (S n) with (n + 1)%nat by lia. rewrite <- drop_drop, Hdrop. reflexivity. }
    pose proof (string_copy_loop_run bd bs preD preS postS max_len Hne Hmax
                  n s [] room fuel m Hbs Hs Hbd Hn1 ltac:(lia) ltac:(simpl; lia)
                  ltac:(simpl; lia) Hfuel) as Hloop.
    cbn [app length] in Hloop. change (Z.of_nat 0) with 0 in Hloop.
    rewrite Z.add_0_l, Hdrop in Hloop.
    unfold Sample.string_copy. cbn [is_null orb]. rewrite Hguard, Hloop.
    cbn [mbind outcome_bind ptr_add].
    rewrite (store_middle _ bd (preD ++ take n s) room' r NUL);
      [| rewrite lookup_insert_eq; f_equal; same_cells
       | rewrite length_app, length_take; lia].
    rewrite insert_insert_eq, Htail. f_equal. f_equal. same_cells.
Qed.

Lemma string_copy_bounded_witness :
  Sample.string_copy 2 (Ptr 1 0) (Ptr 2 0) 3
    (<[1%positive := list_byte_of_string "xxxxxx"]>
       (<[2%positive := list_byte_of_string "hello" ++ [NUL]]> ∅))
  = Ret (<[1%positive := list_byte_of_string "he" ++ [NUL] ++ list_byte_of_string "xxx"]>
           (<[2%positive := list_byte_of_string "hello" ++ [NUL]]> ∅)).
Proof.
  assert (Hmax : 0 < 3 < USize.modulus) by (split; reflexivity).
  destruct (string_copy_bounded 2 1%positive 2%positive 0 0 3
              (<[1%positive := list_byte_of_string "xxxxxx"]>
                 (<[2%positive := list_byte_of_string "hello" ++ [NUL]]> ∅)) Hmax)
    as [_ Hrun].
  refine (eq_trans (Hrun [] (list_byte_of_string "xxxxxx") []
                      (list_byte_of_string "hello") [] _ _ _ _ _ _ _ _) _).
  - discriminate.
  - reflexivity.
  - reflexivity.
  - reflexivity.
  - reflexivity.
  - intros Hin. apply list_elem_of_In in Hin. simpl in Hin.
    repeat (destruct Hin as [Hin | Hin]; [discriminate Hin |]). exact Hin.
  - simpl. lia.
  - simpl. lia.
  - reflexivity.
Defined.

Example string_copy_short_source :
  Sample.string_copy 2 (Ptr 1 1) (Ptr 2 0) 5
    (<[1%positive := list_byte_of_string "xxxxxx"]>
       (<[2%positive := list_byte_of_string "hi" ++ [NUL]]> ∅))
  = Ret (<[1%positive := list_byte_of_string "xhi" ++ [NUL] ++ list_byte_of_string "xx"]>
           (<[2%positive := list_byte_of_string "hi" ++ [NUL]]> ∅)).
Proof. vm_compute. reflexivity. Qed.

(** Overlapping pointers: [dest = src + 1] in one block.  Every copied
    byte overwrites the next byte to read, so the terminator of the source
    is never seen; the run still stops after [max_len - 1] bytes. *)
Example string_copy_overlap :
  Sample.string_copy 3 (Ptr 1 1) (Ptr 1 0) 4
    (<[1%positive := list_byte_of_string "ab" ++ [NUL] ++ list_byte_of_string "xyz"]> ∅)
  = Ret (<[1%positive := list_byte_of_string "aaaa" ++ [NUL] ++ list_byte_of_string "z"]> ∅).
Proof. vm_compute. reflexivity. Qed.

(** A destination too small for what is copied: the run is undefined. *)
Example string_copy_no_room :
  Sample.string_copy 5 (Ptr 1 0) (Ptr 2 0) 6
    (<[1%positive := list_byte_of_string "xx"]>
       (<[2%positive := list_byte_of_string "hello" ++ [NUL]]> ∅))
  = Undefined.
Proof. vm_compute. reflexivity. Qed.

(** * Further properties *)

(** ** Arithmetic modulo [2^32] *)

#[local] Instance Int32_eqm_equiv : Equivalence (eqm (2 ^ 32)) :=
  eqm_setoid (2 ^ 32).
#[local] Instance Int32_eqm_add :
  Proper (eqm (2 ^ 32) ==> eqm (2 ^ 32) ==> eqm (2 ^ 32)) Z.add :=
  Zplus_eqm (2 ^ 32).
#[local] Instance Int32_eqm_sub :
  Proper (eqm (2 ^ 32) ==> eqm (2 ^ 32) ==> eqm (2 ^ 32)) Z.sub :=
  Zminus_eqm (2 ^ 32).
#[local] Instance Int32_eqm_mul :
  Proper (eqm (2 ^ 32) ==> eqm (2 ^ 32) ==> eqm (2 ^ 32)) Z.mul :=
  Zmult_eqm (2 ^ 32).

Lemma Int32_wrap_eqm (z : Z) : eqm (2 ^ 32) (Int32.wrap z) z.
Proof. apply Int32_wrap_mod. Qed.

(** Two reductions are equal when the exact values under them, with every
    inner reduction dropped, are equal as polynomials. *)
Ltac int32_ring :=
  unfold Int32.add, Int32.sub, Int32.mul;
  apply Int32_wrap_congr;
  match goal with |- ?a mod _ = ?b mod _ => change (eqm (2 ^ 32) a b) end;
  repeat (setoid_rewrite Int32_wrap_eqm);
  match goal with |- eqm _ ?a ?b => replace a with b by ring; reflexivity end.

(** X8.  [add] and [multiply] keep the laws of a commutative ring through
    every overflow: both are commutative and associative, [multiply]
    distributes over [add], [0] and [1] are neutral on 32-bit values, and
    [multiply a (-1)] is the opposite of [a]. *)
Theorem add_multiply_ring_laws (a b c : Z) :
  Int32.in_range a →
  Mathlib.add a b = Mathlib.add b a
  ∧ Mathlib.add (Mathlib.add a b) c = Mathlib.add a (Mathlib.add b c)
  ∧ Mathlib.add a 0 = a
  ∧ Mathlib.add a (Mathlib.multiply a (-1)) = 0
  ∧ Mathlib.multiply a b = Mathlib.multiply b a
  ∧ Mathlib.multiply (Mathlib.multiply a b) c
    = Mathlib.multiply a (Mathlib.multiply b c)
  ∧ Mathlib.multiply a 1 = a
  ∧ Mathlib.multiply a (Mathlib.add b c)
    = Mathlib.add (Mathlib.multiply a b) (Mathlib.multiply a c).
Proof.
  intros Ha. unfold Mathlib.add, Mathlib.multiply.
  split; [int32_ring |]. split; [int32_ring |].
  split; [unfold Int32.add; rewrite Z.add_0_r; apply Int32_wrap_id, Ha |].
  split; [transitivity (Int32.wrap 0); [int32_ring | reflexivity] |].
  split; [int32_ring |]. split; [int32_ring |].
  split; [unfold Int32.mul; rewrite Z.mul_1_r; apply Int32_wrap_id, Ha |].
  int32_ring.
Qed.

Lemma add_multiply_ring_laws_witness :
  Int32.in_range 2147483647
  ∧ Mathlib.add (Mathlib.add 2147483647 1) (-1)
    = Mathlib.add 2147483647 (Mathlib.add 1 (-1))
  ∧ Mathlib.add 2147483647 (Mathlib.multiply 2147483647 (-1)) = 0.
Proof.
  assert (Ha : Int32.in_range 2147483647) by (vm_compute; split; discriminate).
  destruct (add_multiply_ring_laws 2147483647 1 (-1) Ha)
    as (_ & Hassoc & _ & Hopp & _).
  split; [exact Ha |]. split; [exact Hassoc | exact Hopp].
Defined.

(** ** [point_distance_squared] *)

(** X15.  The squared distance does not depend on the order of the two
    points, overflow or not, and is [0] from a point to itself. *)
Theorem point_distance_squared_symmetric (a b : Mathlib.Point) :
  Mathlib.point_distance_squared a b = Mathlib.point_distance_squared b a
  ∧ Mathlib.point_distance_squared a a = 0.
Proof.
  unfold Mathlib.point_distance_squared. split.
  - int32_ring.
  - transitivity (Int32.wrap 0); [int32_ring | reflexivity].
Qed.

(** X16.  When the two coordinate differences and the sum of their squares
    are representable, [point_distance_squared] is that exact sum, hence
    not negative. *)
Theorem point_distance_squared_exact (a b : Mathlib.Point) :
  let dx := Mathlib.x b - Mathlib.x a in
  let dy := Mathlib.y b - Mathlib.y a in
  Int32.in_range dx → Int32.in_range dy →
  Int32.in_range (dx * dx + dy * dy) →
  Mathlib.point_distance_squared a b = dx * dx + dy * dy
  ∧ 0 <= Mathlib.point_distance_squared a b.
Proof.
  intros dx dy Hdx Hdy Hsum.
  assert (Hxx : 0 <= dx * dx) by apply Z.square_nonneg.
  assert (Hyy : 0 <= dy * dy) by apply Z.square_nonneg.
  assert (Hrun : Mathlib.point_distance_squared a b = dx * dx + dy * dy).
  { unfold Mathlib.point_distance_squared, Int32.sub, Int32.mul, Int32.add.
    fold dx dy. rewrite (Int32_wrap_id dx Hdx), (Int32_wrap_id dy Hdy).
    rewrite (Int32_wrap_id (dx * dx)), (Int32_wrap_id (dy * dy));
      [apply Int32_wrap_id, Hsum | |];
      unfold Int32.in_range, Int32.min_signed, Int32.max_signed,
        Int32.half_modulus in *; lia. }
  split; [exact Hrun | rewrite Hrun; lia].
Qed.

Lemma point_distance_squared_exact_witness :
  Mathlib.point_distance_squared (Mathlib.MkPoint 0 0) (Mathlib.MkPoint 3 4) = 25
  ∧ 0 <= Mathlib.point_distance_squared (Mathlib.MkPoint 0 0) (Mathlib.MkPoint 3 4).
Proof.
  apply (point_distance_squared_exact (Mathlib.MkPoint 0 0) (Mathlib.MkPoint 3 4));
    vm_compute; split; discriminate.
Defined.

(** Outside that range the result can be negative. *)
Example point_distance_squared_overflow :
  Mathlib.point_distance_squared (Mathlib.MkPoint 0 0) (Mathlib.MkPoint 46341 0)
  = -2147479015.
Proof. vm_compute. reflexivity. Qed.

(** ** [vec2_add], [vec2_scale], [vec2_dot] *)

(** X17.  [vec2_add] is commutative and associative through every
    overflow, the zero vector is neutral on 32-bit components, and the
    vector scaled by [-1] is the opposite. *)
Theorem vec2_add_group_laws (a b c : Sample.Vec2) :
  vec2_in_range a →
  Sample.vec2_add a b = Sample.vec2_add b a
  ∧ Sample.vec2_add (Sample.vec2_add a b) c
    = Sample.vec2_add a (Sample.vec2_add b c)
  ∧ Sample.vec2_add a (Sample.MkVec2 0 0) = a
  ∧ Sample.vec2_add a (Sample.vec2_scale a (-1)) = Sample.MkVec2 0 0.
Proof.
  intros [Hx Hy]. destruct a as [ax ay], b as [bx by_], c as [cx cy].
  unfold Sample.vec2_add, Sample.vec2_scale. cbn [Sample.x Sample.y] in *.
  split; [f_equal; int32_ring |]. split; [f_equal; int32_ring |].
  split.
  - unfold Int32.add. rewrite !Z.add_0_r, !Int32_wrap_id by assumption. reflexivity.
  - f_equal; (transitivity (Int32.wrap 0); [int32_ring | reflexivity]).
Qed.

Lemma vec2_add_group_laws_witness :
  vec2_in_range (Sample.MkVec2 2147483647 (-5))
  ∧ Sample.vec2_add (Sample.MkVec2 2147483647 (-5))
      (Sample.vec2_scale (Sample.MkVec2 2147483647 (-5)) (-1))
    = Sample.MkVec2 0 0.
Proof.
  assert (Hv : vec2_in_range (Sample.MkVec2 2147483647 (-5)))
    by (split; vm_compute; split; discriminate).
  destruct (vec2_add_group_laws (Sample.MkVec2 2147483647 (-5))
              (Sample.MkVec2 0 0) (Sample.MkVec2 0 0) Hv) as (_ & _ & _ & Hopp).
  split; [exact Hv | exact Hopp].
Defined.

(** X18.  [vec2_scale] distributes over [vec2_add], two scalings compose
    into one by the product of the factors, scaling by [0] gives the zero
    vector, and scaling by [1] leaves a vector of 32-bit components as it
    is. *)
Theorem vec2_scale_laws (a b : Sample.Vec2) (j k : Z) :
  vec2_in_range a →
  Sample.vec2_scale (Sample.vec2_add a b) k
  = Sample.vec2_add (Sample.vec2_scale a k) (Sample.vec2_scale b k)
  ∧ Sample.vec2_scale (Sample.vec2_scale a j) k
    = Sample.vec2_scale a (Sample.multiply_numbers j k)
  ∧ Sample.vec2_scale a 0 = Sample.MkVec2 0 0
  ∧ Sample.vec2_scale a 1 = a.
Proof.
  intros [Hx Hy]. destruct a as [ax ay], b as [bx by_].
  unfold Sample.vec2_add, Sample.vec2_scale, Sample.multiply_numbers.
  cbn [Sample.x Sample.y] in *.
  split; [f_equal; int32_ring |]. split; [f_equal; int32_ring |].
  split.
  - unfold Int32.mul. rewrite !Z.mul_0_r. reflexivity.
  - unfold Int32.mul. rewrite !Z.mul_1_r, !Int32_wrap_id by assumption. reflexivity.
Qed.

Lemma vec2_scale_laws_witness :
  vec2_in_range (Sample.MkVec2 65536 3)
  ∧ Sample.vec2_scale (Sample.vec2_scale (Sample.MkVec2 65536 3) 65536) 65536
    = Sample.vec2_scale (Sample.MkVec2 65536 3) (Sample.multiply_numbers 65536 65536).
Proof.
  assert (Hv : vec2_in_range (Sample.MkVec2 65536 3))
    by (split; vm_compute; split; discriminate).
  destruct (vec2_scale_laws (Sample.MkVec2 65536 3) (Sample.MkVec2 0 0)
              65536 65536 Hv) as (_ & Hcomp & _).
  split; [exact Hv | exact Hcomp].
Defined.

(** X19.  [vec2_dot] is symmetric, additive in its first argument and
    compatible with scaling, whatever overflows on the way. *)
Theorem vec2_dot_laws (a b c : Sample.Vec2) (k : Z) :
  Sample.vec2_dot a b = Sample.vec2_dot b a
  ∧ Sample.vec2_dot (Sample.vec2_add a b) c
    = Sample.add_numbers (Sample.vec2_dot a c) (Sample.vec2_dot b c)
  ∧ Sample.vec2_dot (Sample.vec2_scale a k) b
    = Sample.multiply_numbers k (Sample.vec2_dot a b).
Proof.
  destruct a as [ax ay], b as [bx by_], c as [cx cy].
  unfold Sample.vec2_dot, Sample.vec2_add, Sample.vec2_scale,
    Sample.add_numbers, Sample.multiply_numbers.
  cbn [Sample.x Sample.y].
  split; [int32_ring |]. split; int32_ring.
Qed.

(** ** More on [factorial] *)

Lemma factorial_below_int32_max_witness : Mathlib.factorial 4 5 = Ret 120.
Proof.
  refine (eq_trans (factorial_below_int32_max 4 5 _ _ _) _).
  - vm_compute. split; discriminate.
  - reflexivity.
  - vm_compute. discriminate.
  - reflexivity.
Defined.

Lemma prod_range_split (a b : nat) (i : Z) :
  prod_range (a + b) i = prod_range a i * prod_range b (i + Z.of_nat a).
Proof.
  revert i. induction a as [|a IH]; intros i.
  - simpl. rewrite Z.add_0_r. destruct (prod_range b i); reflexivity.
  - cbn [Nat.add prod_range]. rewrite IH.
    replace (i + 1 + Z.of_nat a) with (i + Z.of_nat (S a)) by lia. ring.
Qed.

(** Above [1] and below the largest [int32_t], the result is the reduction
    of the exact product [2 * 3 * ... * n]. *)
Lemma factorial_run (fuel : nat) (n : Z) :
  1 < n < Int32.max_signed → n - 1 <= Z.of_nat fuel →
  Mathlib.factorial fuel n = Ret (Int32.wrap (prod_range (Z.to_nat (n - 1)) 2)).
Proof.
  intros [Hlo Hhi] Hfuel. unfold Mathlib.factorial.
  replace (n <=? 1) with false by (symmetry; apply Z.leb_gt; exact Hlo).
  rewrite (factorial_loop_run n Hhi (Z.to_nat (n - 1)));
    [| unfold Int32.min_signed, Int32.half_modulus; lia | lia | lia
     | unfold Int32.in_range, Int32.min_signed, Int32.max_signed,
         Int32.half_modulus; lia ].
  rewrite Z.mul_1_l. reflexivity.
Qed.

(** X5.  Up to [n = 12] nothing overflows: [factorial n] is exactly [n!]
    (and [1] for every [n <= 0]). *)
Theorem factorial_exact_up_to_12 (fuel : nat) (n : Z) :
  n <= 12 → (11 ≤ fuel)%nat →
  Mathlib.factorial fuel n = Ret (Z.of_nat (fact (Z.to_nat n))).
Proof.
  intros Hn Hfuel. destruct (Z.leb_spec n 1) as [Hle|Hgt].
  - unfold Mathlib.factorial.
    replace (n <=? 1) with true by (symmetry; apply Z.leb_le; exact Hle).
    assert (Hcase : Z.to_nat n = 0%nat ∨ Z.to_nat n = 1%nat) by lia.
    destruct Hcase as [-> | ->]; reflexivity.
  - rewrite factorial_run
      by (unfold Int32.max_signed, Int32.half_modulus; lia).
    rewrite <- prod_range_from_2 by lia. f_equal.
    assert (Hcase : n = 2 ∨ n = 3 ∨ n = 4 ∨ n = 5 ∨ n = 6 ∨ n = 7 ∨ n = 8
                    ∨ n = 9 ∨ n = 10 ∨ n = 11 ∨ n = 12) by lia.
    repeat (destruct Hcase as [-> | Hcase]; [vm_compute; reflexivity |]).
    subst n. vm_compute. reflexivity.
Qed.

Lemma factorial_exact_up_to_12_witness : Mathlib.factorial 11 5 = Ret 120.
Proof.
  refine (eq_trans (factorial_exact_up_to_12 11 5 _ _) _).
  - vm_compute. discriminate.
  - lia.
  - reflexivity.
Defined.

(** X6.  From [n = 34] on, below the largest [int32_t], [factorial n]
    returns [0]: [34!] is a multiple of [2^32] and so is every later
    product. *)
Theorem factorial_zero_from_34 (fuel : nat) (n : Z) :
  34 <= n < Int32.max_signed → n - 1 <= Z.of_nat fuel →
  Mathlib.factorial fuel n = Ret 0.
Proof.
  intros [Hlo Hhi] Hfuel.
  rewrite factorial_run by lia. f_equal.
  replace (Z.to_nat (n - 1)) with (33 + Z.to_nat (n - 34))%nat by lia.
  rewrite prod_range_split.
  transitivity (Int32.wrap 0); [| reflexivity].
  apply Int32_wrap_congr. rewrite Z.mul_mod by lia.
  replace (prod_range 33 2 mod 2 ^ 32) with 0 by (vm_compute; reflexivity).
  reflexivity.
Qed.

Lemma factorial_zero_from_34_witness : Mathlib.factorial 33 34 = Ret 0.
Proof.
  apply (factorial_zero_from_34 33 34).
  - split; [vm_compute; discriminate | reflexivity].
  - vm_compute. discriminate.
Defined.

(** [33!] is not yet a multiple of [2^32]. *)
Example factorial_33 : Mathlib.factorial 32 33 = Ret (-2147483648).
Proof. vm_compute. reflexivity. Qed.

(** X7.  One more step of the product: for [0 <= n] with [n + 1] below the
    largest [int32_t], [factorial (n + 1)] is [multiply] of [factorial n]
    and [n + 1]. *)
Theorem factorial_step (fuel : nat) (n : Z) :
  0 <= n → n + 1 < Int32.max_signed → n <= Z.of_nat fuel →
  ∃ r, Mathlib.factorial fuel n = Ret r
       ∧ Mathlib.factorial fuel (n + 1) = Ret (Mathlib.multiply r (n + 1)).
Proof.
  intros Hlo Hhi Hfuel.
  assert (Hcase : n = 0 ∨ n = 1 ∨ 1 < n) by lia.
  destruct Hcase as [-> | [-> | Hn]].
  - exists 1. split; reflexivity.
  - exists 1. split; [reflexivity |].
    rewrite factorial_run by (unfold Int32.max_signed, Int32.half_modulus; lia).
    reflexivity.
  - exists (Int32.wrap (prod_range (Z.to_nat (n - 1)) 2)).
    split; [apply factorial_run; lia |].
    rewrite factorial_run by lia. f_equal.
    replace (Z.to_nat (n + 1 - 1)) with (Z.to_nat (n - 1) + 1)%nat by lia.
    rewrite prod_range_split. cbn [prod_range].
    unfold Mathlib.multiply, Int32.mul. rewrite Int32_wrap_mul_l.
    f_equal. rewrite Z.mul_1_r. f_equal. lia.
Qed.

Lemma factorial_step_witness :
  ∃ r, Mathlib.factorial 13 12 = Ret r
       ∧ Mathlib.factorial 13 13 = Ret (Mathlib.multiply r 13).
Proof.
  apply (factorial_step 13 12).
  - vm_compute. discriminate.
  - reflexivity.
  - vm_compute. discriminate.
Defined.

(** ** More on the array functions *)

(** The loop at index [i = length done] adds the cells [rest] to [sum]. *)
Lemma array_sum_loop_run (b : block) (pre post : list Z) (len : Z)
    (m : gmap block (list Z)) :
  len < USize.modulus →
  ∀ (rest done : list Z) (fuel : nat) (sum : Z),
    m !! b = Some (pre ++ done ++ rest ++ post) →
    Z.of_nat (length done) + Z.of_nat (length rest) = len →
    (length rest ≤ fuel)%nat →
    Int32.in_range sum →
    Mathlib.array_sum_loop fuel (Ptr b (Z.of_nat (length pre))) len
      (Z.of_nat (length done)) sum m
    = Ret (Int32.wrap (sum + total rest)).
Proof.
  intros Hlen. induction rest as [|v rest IH];
    intros done fuel sum Hb Hsum Hfuel Hrange.
  - simpl in Hsum.
    assert (Hcond : (Z.of_nat (length done) <? len) = false) by (apply Z.ltb_ge; lia).
    destruct fuel; cbn [Mathlib.array_sum_loop total foldr]; rewrite Hcond;
      rewrite Z.add_0_r, Int32_wrap_id by exact Hrange; reflexivity.
  - destruct fuel as [|fuel]; [simpl in Hfuel; lia |].
    simpl in Hsum, Hfuel.
    assert (Hcond : (Z.of_nat (length done) <? len) = true) by (apply Z.ltb_lt; lia).
    cbn [Mathlib.array_sum_loop]. rewrite Hcond. cbn [ptr_add].
    rewrite (load_middle m b (pre ++ done) (rest ++ post) v
               (Z.of_nat (length pre) + Z.of_nat (length done)));
      [| rewrite Hb; f_equal; same_cells | rewrite length_app; lia].
    cbn [mbind outcome_bind].
    replace (USize.add (Z.of_nat (length done)) 1)
      with (Z.of_nat (length (done ++ [v]))).
    2:{ rewrite length_app. simpl. unfold USize.add.
        rewrite USize_wrap_id by (unfold USize.in_range; lia). lia. }
    rewrite (IH (done ++ [v]) fuel).
    + f_equal. change (total (v :: rest)) with (v + total rest). int32_ring.
    + rewrite Hb. f_equal. same_cells.
    + rewrite length_app. simpl. lia.
    + lia.
    + apply Int32_wrap_range.
Qed.

(** X1.  On a pointer to the cells [arr], [array_sum] (and [sum_array])
    returns the 32-bit reduction of the exact sum of [arr]; when that sum
    is representable it is returned as it is, even if partial sums
    overflowed on the way. *)
Theorem array_sum_total (fuel : nat) (b : block) (pre arr post : list Z)
    (m : gmap block (list Z)) :
  m !! b = Some (pre ++ arr ++ post) →
  Z.of_nat (length arr) < USize.modulus →
  (length arr ≤ fuel)%nat →
  Mathlib.array_sum fuel (Ptr b (Z.of_nat (length pre))) (Z.of_nat (length arr)) m
  = Ret (Int32.wrap (total arr))
  ∧ Sample.sum_array fuel (Ptr b (Z.of_nat (length pre))) (Z.of_nat (length arr)) m
    = Ret (Int32.wrap (total arr))
  ∧ (Int32.in_range (total arr) →
     Mathlib.array_sum fuel (Ptr b (Z.of_nat (length pre))) (Z.of_nat (length arr)) m
     = Ret (total arr)).
Proof.
  intros Hb Hlen Hfuel.
  assert (Hrun : Mathlib.array_sum fuel (Ptr b (Z.of_nat (length pre)))
                   (Z.of_nat (length arr)) m = Ret (Int32.wrap (total arr))).
  { unfold Mathlib.array_sum.
    pose proof (array_sum_loop_run b pre post (Z.of_nat (length arr)) m Hlen
                  arr [] fuel 0 Hb ltac:(simpl; lia) Hfuel
                  ltac:(vm_compute; split; discriminate)) as Hloop.
    cbn [length] in Hloop. change (Z.of_nat 0) with 0 in Hloop.
    rewrite Hloop, Z.add_0_l. reflexivity. }
  split; [exact Hrun |].
  split; [unfold Sample.sum_array; rewrite <- array_sum_loop_agree; exact Hrun |].
  intros Hexact. rewrite Hrun, Int32_wrap_id by exact Hexact. reflexivity.
Qed.

Lemma array_sum_total_witness :
  Mathlib.array_sum 3 (Ptr 1 1) 3
    (<[1%positive := [9; 2147483647; 5; -2147483647; 9]]> ∅) = Ret 5.
Proof.
  destruct (array_sum_total 3 1%positive [9] [2147483647; 5; -2147483647] [9]
              (<[1%positive := [9; 2147483647; 5; -2147483647; 9]]> ∅))
    as (_ & _ & Hexact).
  - reflexivity.
  - reflexivity.
  - simpl. lia.
  - apply Hexact. vm_compute. split; discriminate.
Defined.

Lemma total_doubled (arr : list Z) :
  eqm (2 ^ 32) (total (map (λ v, Int32.mul v 2) arr)) (total arr * 2).
Proof.
  induction arr as [|v arr IH].
  - reflexivity.
  - change (eqm (2 ^ 32)
              (Int32.mul v 2 + total (map (λ v, Int32.mul v 2) arr))
              ((v + total arr) * 2)).
    unfold Int32.mul at 1. rewrite Int32_wrap_eqm, IH.
    replace (v * 2 + total arr * 2) with ((v + total arr) * 2) by ring.
    reflexivity.
Qed.

(** X2.  Doubling then summing: after [array_double], [array_sum] of the
    same cells is [multiply] of the sum before by [2]. *)
Theorem array_sum_after_double (fuel : nat) (b : block) (pre arr post : list Z)
    (m : gmap block (list Z)) :
  m !! b = Some (pre ++ arr ++ post) →
  Z.of_nat (length arr) < USize.modulus →
  (length arr ≤ fuel)%nat →
  ∃ s m',
    Mathlib.array_sum fuel (Ptr b (Z.of_nat (length pre))) (Z.of_nat (length arr)) m
    = Ret s
    ∧ Mathlib.array_double fuel (Ptr b (Z.of_nat (length pre)))
        (Z.of_nat (length arr)) m = Ret m'
    ∧ Mathlib.array_sum fuel (Ptr b (Z.of_nat (length pre)))
        (Z.of_nat (length arr)) m' = Ret (Mathlib.multiply s 2).
Proof.
  intros Hb Hlen Hfuel.
  set (doubled := map (λ v, Int32.mul v 2) arr).
  assert (Hzero : Int32.in_range 0) by (vm_compute; split; discriminate).
  exists (Int32.wrap (total arr)), (<[b := pre ++ doubled ++ post]> m).
  split; [| split].
  - unfold Mathlib.array_sum.
    pose proof (array_sum_loop_run b pre post (Z.of_nat (length arr)) m Hlen
                  arr [] fuel 0 Hb ltac:(simpl; lia) Hfuel Hzero) as Hloop.
    cbn [length] in Hloop. change (Z.of_nat 0) with 0 in Hloop.
    rewrite Hloop, Z.add_0_l. reflexivity.
  - unfold Mathlib.array_double.
    pose proof (array_double_loop_run b pre post (Z.of_nat (length arr)) Hlen
                  arr [] fuel m Hb ltac:(simpl; lia) Hfuel) as Hloop.
    cbn [length app] in Hloop. change (Z.of_nat 0) with 0 in Hloop.
    exact Hloop.
  - unfold Mathlib.array_sum.
    assert (Hlen' : length doubled = length arr) by apply length_map.
    pose proof (array_sum_loop_run b pre post (Z.of_nat (length arr))
                  (<[b := pre ++ doubled ++ post]> m) Hlen
                  doubled [] fuel 0 (lookup_insert_eq _ _ _)
                  ltac:(simpl; lia) ltac:(lia) Hzero) as Hloop.
    cbn [length] in Hloop. change (Z.of_nat 0) with 0 in Hloop.
    rewrite Hloop, Z.add_0_l. f_equal.
    unfold Mathlib.multiply, Int32.mul. apply Int32_wrap_congr.
    change (eqm (2 ^ 32) (total doubled) (Int32.wrap (total arr) * 2)).
    subst doubled. rewrite total_doubled, Int32_wrap_eqm. reflexivity.
Qed.

Lemma array_sum_after_double_witness :
  ∃ s m',
    Mathlib.array_sum 3 (Ptr 1 0) 3 (<[1%positive := [1; 2; 3]]> ∅) = Ret s
    ∧ Mathlib.array_double 3 (Ptr 1 0) 3 (<[1%positive := [1; 2; 3]]> ∅) = Ret m'
    ∧ Mathlib.array_sum 3 (Ptr 1 0) 3 m' = Ret (Mathlib.multiply s 2).
Proof.
  apply (array_sum_after_double 3 1%positive [] [1; 2; 3] []
           (<[1%positive := [1; 2; 3]]> ∅)).
  - reflexivity.
  - reflexivity.
  - simpl. lia.
Defined.

Lemma load_past_end {A : Type} (m : gmap block (list A)) (b : block)
    (cells : list A) (ofs : Z) :
  m !! b = Some cells → Z.of_nat (length cells) <= ofs →
  load m (Ptr b ofs) = Undefined.
Proof.
  intros Hb Hofs. unfold load.
  replace (ofs <? 0) with false by (symmetry; apply Z.ltb_ge; lia).
  rewrite Hb, lookup_ge_None_2 by lia. reflexivity.
Qed.

Lemma array_sum_loop_past_end (b : block) (pre : list Z) (len : Z)
    (m : gmap block (list Z)) :
  len < USize.modulus →
  ∀ (rest done : list Z) (fuel : nat) (sum : Z),
    m !! b = Some (pre ++ done ++ rest) →
    Z.of_nat (length done) + Z.of_nat (length rest) < len →
    (length rest < fuel)%nat →
    Mathlib.array_sum_loop fuel (Ptr b (Z.of_nat (length pre))) len
      (Z.of_nat (length done)) sum m
    = Undefined.
Proof.
  intros Hlen. induction rest as [|v rest IH]; intros done fuel sum Hb Hsum Hfuel;
    (destruct fuel as [|fuel]; [simpl in Hfuel; lia |]);
    simpl in Hsum, Hfuel;
    cbn [Mathlib.array_sum_loop];
    (replace (Z.of_nat (length done) <? len) with true
      by (symmetry; apply Z.ltb_lt; lia));
    cbn [ptr_add].
  - rewrite (load_past_end m b (pre ++ done ++ []));
      [reflexivity | exact Hb | rewrite !length_app; simpl; lia].
  - rewrite (load_middle m b (pre ++ done) rest v
               (Z.of_nat (length pre) + Z.of_nat (length done)));
      [| rewrite Hb; f_equal; same_cells | rewrite length_app; lia].
    cbn [mbind outcome_bind].
    replace (USize.add (Z.of_nat (length done)) 1)
      with (Z.of_nat (length (done ++ [v]))).
    2:{ rewrite length_app. simpl. unfold USize.add.
        rewrite USize_wrap_id by (unfold USize.in_range; lia). lia. }
    apply IH.
    + rewrite Hb. f_equal. same_cells.
    + rewrite length_app. simpl. lia.
    + lia.
Qed.

Lemma array_double_loop_past_end (b : block) (pre : list Z) (len : Z) :
  len < USize.modulus →
  ∀ (rest done : list Z) (fuel : nat) (m : gmap block (list Z)),
    m !! b = Some (pre ++ done ++ rest) →
    Z.of_nat (length done) + Z.of_nat (length rest) < len →
    (length rest < fuel)%nat →
    Mathlib.array_double_loop fuel (Ptr b (Z.of_nat (length pre))) len
      (Z.of_nat (length done)) m
    = Undefined.
Proof.
  intros Hlen. induction rest as [|v rest IH]; intros done fuel m Hb Hsum Hfuel;
    (destruct fuel as [|fuel]; [simpl in Hfuel; lia |]);
    simpl in Hsum, Hfuel;
    cbn [Mathlib.array_double_loop];
    (replace (Z.of_nat (length done) <? len) with true
      by (symmetry; apply Z.ltb_lt; lia));
    cbn [ptr_add].
  - rewrite (load_past_end m b (pre ++ done ++ []));
      [reflexivity | exact Hb | rewrite !length_app; simpl; lia].
  - rewrite (load_middle m b (pre ++ done) rest v
               (Z.of_nat (length pre) + Z.of_nat (length done)));
      [| rewrite Hb; f_equal; same_cells | rewrite length_app; lia].
    cbn [mbind outcome_bind].
    rewrite (store_middle m b (pre ++ done) rest v (Int32.mul v 2)
               (Z.of_nat (length pre) + Z.of_nat (length done)));
      [| rewrite Hb; f_equal; same_cells | rewrite length_app; lia].
    cbn [mbind outcome_bind].
    replace (USize.add (Z.of_nat (length done)) 1)
      with (Z.of_nat (length (done ++ [Int32.mul v 2]))).
    2:{ rewrite length_app. simpl. unfold USize.add.
        rewrite USize_wrap_id by (unfold USize.in_range; lia). lia. }
    apply IH.
    + rewrite lookup_insert_eq. f_equal. same_cells.
    + rewrite length_app. simpl. lia.
    + lia.
Qed.

(** X3.  No bound but [len] is checked: when [len] is larger than the
    number of cells from the pointer to the end of its block, [array_sum],
    [sum_array], [array_double] and [double_array] read past the block, and
    on the null pointer with [len > 0] they read through it; every such run
    is undefined. *)
Theorem array_functions_past_end (fuel : nat) (b : block) (pre arr : list Z)
    (len : Z) (m : gmap block (list Z)) :
  m !! b = Some (pre ++ arr) →
  Z.of_nat (length arr) < len < USize.modulus →
  (length arr < fuel)%nat →
  (Mathlib.array_sum fuel (Ptr b (Z.of_nat (length pre))) len m = Undefined
   ∧ Sample.sum_array fuel (Ptr b (Z.of_nat (length pre))) len m = Undefined
   ∧ Mathlib.array_double fuel (Ptr b (Z.of_nat (length pre))) len m = Undefined
   ∧ Sample.double_array fuel (Ptr b (Z.of_nat (length pre))) len m = Undefined)
  ∧ (Mathlib.array_sum fuel Null len m = Undefined
     ∧ Sample.sum_array fuel Null len m = Undefined
     ∧ Mathlib.array_double fuel Null len m = Undefined
     ∧ Sample.double_array fuel Null len m = Undefined).
Proof.
  intros Hb [Hlo Hhi] Hfuel.
  assert (Hsum : Mathlib.array_sum fuel (Ptr b (Z.of_nat (length pre))) len m
                 = Undefined).
  { apply (array_sum_loop_past_end b pre len m Hhi arr [] fuel 0);
      [exact Hb | simpl; lia | exact Hfuel]. }
  assert (Hdbl : Mathlib.array_double fuel (Ptr b (Z.of_nat (length pre))) len m
                 = Undefined).
  { apply (array_double_loop_past_end b pre len Hhi arr [] fuel m);
      [exact Hb | simpl; lia | exact Hfuel]. }
  assert (Hcond : (0 <? len) = true) by (apply Z.ltb_lt; lia).
  split.
  - split; [exact Hsum |].
    split; [unfold Sample.sum_array; rewrite <- array_sum_loop_agree; exact Hsum |].
    split; [exact Hdbl |].
    unfold Sample.double_array. rewrite <- array_double_loop_agree. exact Hdbl.
  - destruct fuel as [|fuel]; [lia |].
    unfold Mathlib.array_sum, Sample.sum_array, Mathlib.array_double,
      Sample.double_array.
    cbn [Mathlib.array_sum_loop Sample.sum_array_loop Mathlib.array_double_loop
           Sample.double_array_loop].
    rewrite Hcond. repeat split; reflexivity.
Qed.

Lemma array_functions_past_end_witness :
  Mathlib.array_sum 5 (Ptr 1 1) 3 (<[1%positive := [1; 2; 3]]> ∅) = Undefined
  ∧ Mathlib.array_double 5 Null 3 (<[1%positive := [1; 2; 3]]> ∅) = Undefined.
Proof.
  destruct (array_functions_past_end 5 1%positive [1] [2; 3] 3
              (<[1%positive := [1; 2; 3]]> ∅))
    as ((Hsum & _) & (_ & _ & Hnull & _)).
  - reflexivity.
  - split; reflexivity.
  - simpl. lia.
  - split; [exact Hsum | exact Hnull].
Defined.

(** ** More on the terminator scans *)

Lemma occurrences_le_length (target : byte) (s : list byte) :
  (occurrences target s ≤ length s)%nat.
Proof.
  induction s as [|c s IH]; simpl; [lia |]. destruct (Byte.eqb c target); lia.
Qed.

Lemma occurrences_NUL (s : list byte) : NUL ∉ s → occurrences NUL s = 0%nat.
Proof.
  induction s as [|c s IH]; intros Hs; [reflexivity |].
  apply not_elem_of_cons in Hs as [Hc Hs]. simpl.
  fold (is_nul c). rewrite is_nul_false by congruence. rewrite IH by exact Hs.
  reflexivity.
Qed.

Lemma occurrences_app (target : byte) (s1 s2 : list byte) :
  occurrences target (s1 ++ s2)
  = (occurrences target s1 + occurrences target s2)%nat.
Proof. induction s1 as [|c s1 IH]; simpl; [reflexivity | rewrite IH; lia]. Qed.

Lemma occurrences_reverse (target : byte) (s : list byte) :
  occurrences target (reverse s) = occurrences target s.
Proof.
  induction s as [|c s IH]; [reflexivity |].
  rewrite reverse_cons, occurrences_app, IH. simpl. lia.
Qed.

(** X9.  On a terminated string, [count_chars] never counts more bytes than
    [string_length] reports, and it counts none when [target] is the
    terminator itself: the scan stops before it. *)
Theorem count_chars_bounds (fuel : nat) (b : block) (pre s post : list byte)
    (target : byte) (m : gmap block (list byte)) :
  m !! b = Some (pre ++ s ++ NUL :: post) →
  NUL ∉ s →
  Z.of_nat (length s) < USize.modulus →
  (length s ≤ fuel)%nat →
  Mathlib.count_chars fuel (Ptr b (Z.of_nat (length pre))) NUL m = Ret 0
  ∧ ∃ c n,
      Mathlib.count_chars fuel (Ptr b (Z.of_nat (length pre))) target m = Ret c
      ∧ Sample.string_length fuel (Ptr b (Z.of_nat (length pre))) m = Ret n
      ∧ 0 <= c <= n.
Proof.
  intros Hb Hs Hlen Hfuel.
  assert (Hcount : ∀ t, Mathlib.count_chars fuel (Ptr b (Z.of_nat (length pre))) t m
                        = Ret (Z.of_nat (occurrences t s))).
  { intros t. unfold Mathlib.count_chars.
    rewrite (count_chars_loop_run b t post m s pre fuel 0); auto; lia. }
  split.
  - rewrite Hcount, occurrences_NUL by exact Hs. reflexivity.
  - exists (Z.of_nat (occurrences target s)), (Z.of_nat (length s)).
    split; [apply Hcount |]. split.
    + unfold Sample.string_length. cbn [is_null].
      apply (string_length_loop_run b pre post m s [] fuel); simpl; auto.
    + pose proof (occurrences_le_length target s). lia.
Qed.

Lemma count_chars_bounds_witness :
  Mathlib.count_chars 6 (Ptr 1 0) NUL
    (<[1%positive := list_byte_of_string "banana" ++ [NUL]]> ∅) = Ret 0.
Proof.
  destruct (count_chars_bounds 6 1%positive [] (list_byte_of_string "banana") []
              "a" (<[1%positive := list_byte_of_string "banana" ++ [NUL]]> ∅))
    as (Hnul & _).
  - reflexivity.
  - intros Hin. apply list_elem_of_In in Hin. simpl in Hin.
    repeat (destruct Hin as [Hin | Hin]; [discriminate Hin |]). exact Hin.
  - reflexivity.
  - simpl. lia.
  - exact Hnul.
Defined.

(** X10.  [reverse_string] keeps what the scans report: after it,
    [count_chars] of every byte and [string_length] are what they were
    before. *)
Theorem reverse_string_preserves_counts (fuel : nat) (b : block)
    (pre s post : list byte) (target : byte) (m : gmap block (list byte)) :
  m !! b = Some (pre ++ s ++ NUL :: post) →
  NUL ∉ s →
  Z.of_nat (length s) < USize.modulus →
  (length s ≤ fuel)%nat →
  ∃ m1,
    Mathlib.reverse_string fuel (Ptr b (Z.of_nat (length pre))) m = Ret m1
    ∧ Mathlib.count_chars fuel (Ptr b (Z.of_nat (length pre))) target m
      = Ret (Z.of_nat (occurrences target s))
    ∧ Mathlib.count_chars fuel (Ptr b (Z.of_nat (length pre))) target m1
      = Ret (Z.of_nat (occurrences target s))
    ∧ Sample.string_length fuel (Ptr b (Z.of_nat (length pre))) m
      = Ret (Z.of_nat (length s))
    ∧ Sample.string_length fuel (Ptr b (Z.of_nat (length pre))) m1
      = Ret (Z.of_nat (length s)).
Proof.
  intros Hb Hs Hlen Hfuel.
  set (m1 := <[b := pre ++ reverse s ++ NUL :: post]> m).
  assert (Hb1 : m1 !! b = Some (pre ++ reverse s ++ NUL :: post))
    by apply lookup_insert_eq.
  assert (Hs1 : NUL ∉ reverse s) by (rewrite elem_of_reverse; exact Hs).
  assert (Hhalf : (length s / 2 ≤ fuel)%nat).
  { pose proof (Nat.div_mod_eq (length s) 2). lia. }
  exists m1. split; [apply reverse_string_run; assumption |].
  split; [| split; [| split]].
  - unfold Mathlib.count_chars.
    rewrite (count_chars_loop_run b target post m s pre fuel 0); auto; lia.
  - unfold Mathlib.count_chars.
    rewrite (count_chars_loop_run b target post m1 (reverse s) pre fuel 0);
      rewrite ?length_reverse, ?occurrences_reverse; auto; lia.
  - unfold Sample.string_length. cbn [is_null].
    apply (string_length_loop_run b pre post m s [] fuel); simpl; auto.
  - unfold Sample.string_length. cbn [is_null].
    pose proof (string_length_loop_run b pre post m1 (reverse s) [] fuel) as Hrun.
    rewrite length_reverse in Hrun. apply Hrun; simpl; auto.
Qed.

Lemma reverse_string_preserves_counts_witness :
  ∃ m1,
    Mathlib.reverse_string 6 (Ptr 1 0)
      (<[1%positive := list_byte_of_string "banana" ++ [NUL]]> ∅) = Ret m1
    ∧ Mathlib.count_chars 6 (Ptr 1 0) "a" m1 = Ret 3
    ∧ Sample.string_length 6 (Ptr 1 0) m1 = Ret 6.
Proof.
  destruct (reverse_string_preserves_counts 6 1%positive []
              (list_byte_of_string "banana") [] "a"
              (<[1%positive := list_byte_of_string "banana" ++ [NUL]]> ∅))
    as (m1 & Hrev & _ & Hcount & _ & Hlen).
  - reflexivity.
  - intros Hin. apply list_elem_of_In in Hin. simpl in Hin.
    repeat (destruct Hin as [Hin | Hin]; [discriminate Hin |]). exact Hin.
  - reflexivity.
  - simpl. lia.
  - exists m1. split; [exact Hrev |]. split; [exact Hcount | exact Hlen].
Defined.

(** The scan of [string_length] from index [length done] gives what
    [cstr_len] gives on the cells from there to the end of the block. *)
Lemma string_length_loop_scan (b : block) (pre : list byte)
    (m : gmap block (list byte)) :
  ∀ (rest done : list byte) (fuel : nat),
    m !! b = Some (pre ++ done ++ rest) →
    Z.of_nat (length done) + Z.of_nat (length rest) < USize.modulus →
    (length rest ≤ fuel)%nat →
    Sample.string_length_loop fuel (Ptr b (Z.of_nat (length pre)))
      (Z.of_nat (length done)) m
    = match cstr_len rest with
      | Some n => Ret (Z.of_nat (length done) + Z.of_nat n)
      | None => Undefined
      end.
Proof.
  induction rest as [|c rest IH]; intros done fuel Hb Hlen Hfuel.
  - assert (Hload : load m (Ptr b (Z.of_nat (length pre)) +ₚ Z.of_nat (length done))
                    = Undefined).
    { apply (load_past_end m b (pre ++ done ++ []) _ Hb).
      rewrite !length_app. simpl. lia. }
    destruct fuel; cbn [Sample.string_length_loop cstr_len]; rewrite Hload;
      reflexivity.
  - assert (Hload : load m (Ptr b (Z.of_nat (length pre)) +ₚ Z.of_nat (length done))
                    = Ret c).
    { apply (load_middle m b (pre ++ done) rest).
      - rewrite Hb. f_equal. same_cells.
      - rewrite length_app. cbn [ptr_add]. lia. }
    simpl in Hlen, Hfuel. cbn [cstr_len].
    destruct (is_nul c) eqn:Hc.
    + destruct fuel; cbn [Sample.string_length_loop]; rewrite Hload;
        cbn [mbind outcome_bind]; rewrite Hc; f_equal; lia.
    + destruct fuel as [|fuel]; [lia |].
      cbn [Sample.string_length_loop]. rewrite Hload.
      cbn [mbind outcome_bind]. rewrite Hc.
      replace (USize.add (Z.of_nat (length done)) 1)
        with (Z.of_nat (length (done ++ [c]))).
      2:{ rewrite length_app. simpl. unfold USize.add.
          rewrite USize_wrap_id by (unfold USize.in_range; lia). lia. }
      rewrite (IH (done ++ [c]) fuel);
        [| rewrite Hb; f_equal; same_cells | rewrite length_app; simpl; lia | lia].
      destruct (cstr_len rest) as [n|]; simpl; [| reflexivity].
      f_equal. rewrite length_app. simpl. lia.
Qed.

(** X11.  On every non-null pointer, with fuel for the block it points
    into, [string_length] is [strlen] of the C library: the same length
    when there is a terminator, undefined alike when the pointer is outside
    its block or no terminator follows.  On the null pointer [strlen] is
    undefined and [string_length] returns [0]. *)
Theorem string_length_is_strlen (fuel : nat) (b : block) (ofs : Z)
    (m : gmap block (list byte)) :
  (∀ cells, m !! b = Some cells →
            Z.of_nat (length cells) < USize.modulus ∧ (length cells ≤ fuel)%nat) →
  Sample.string_length fuel (Ptr b ofs) m = strlen m (Ptr b ofs)
  ∧ Sample.string_length fuel Null m = Ret 0
  ∧ strlen m Null = Undefined.
Proof.
  intros Hsize. split; [| split; reflexivity].
  unfold Sample.string_length, strlen. cbn [is_null].
  destruct (Z.ltb_spec ofs 0) as [Hneg|Hpos].
  { destruct fuel; cbn [Sample.string_length_loop ptr_add load];
      (replace (ofs + 0 <? 0) with true by (symmetry; apply Z.ltb_lt; lia));
      reflexivity. }
  destruct (m !! b) as [cells|] eqn:Hb.
  2:{ destruct fuel; cbn [Sample.string_length_loop ptr_add load];
        (replace (ofs + 0 <? 0) with false by (symmetry; apply Z.ltb_ge; lia));
        rewrite Hb; reflexivity. }
  destruct (Hsize cells eq_refl) as [Hmax Hfuel].
  destruct (Z.le_gt_cases ofs (Z.of_nat (length cells))) as [Hin|Hout].
  - pose proof (string_length_loop_scan b (take (Z.to_nat ofs) cells) m
                  (drop (Z.to_nat ofs) cells) [] fuel) as Hscan.
    rewrite length_take_le in Hscan by lia.
    rewrite Z2Nat.id in Hscan by lia.
    cbn [length app] in Hscan. change (Z.of_nat 0) with 0 in Hscan.
    rewrite Hscan.
    + destruct (cstr_len (drop (Z.to_nat ofs) cells)); reflexivity.
    + rewrite take_drop. exact Hb.
    + rewrite length_drop. lia.
    + rewrite length_drop. lia.
  - rewrite drop_ge by lia. cbn [cstr_len].
    assert (Hload : load m (Ptr b ofs +ₚ 0) = Undefined)
      by (apply (load_past_end m b cells _ Hb); lia).
    destruct fuel; cbn [Sample.string_length_loop]; rewrite Hload; reflexivity.
Qed.

Lemma string_length_is_strlen_witness :
  Sample.string_length 6 (Ptr 1 1)
    (<[1%positive := list_byte_of_string "hello" ++ [NUL]]> ∅)
  = strlen (<[1%positive := list_byte_of_string "hello" ++ [NUL]]> ∅) (Ptr 1 1)
  ∧ strlen (<[1%positive := list_byte_of_string "hello" ++ [NUL]]> ∅) (Ptr 1 1)
    = Ret 4.
Proof.
  destruct (string_length_is_strlen 6 1%positive 1
              (<[1%positive := list_byte_of_string "hello" ++ [NUL]]> ∅))
    as (Hsame & _).
  - intros cells Hcells. rewrite lookup_insert_eq in Hcells.
    injection Hcells as <-. split; [reflexivity | simpl; lia].
  - split; [exact Hsame | reflexivity].
Defined.

(** ** More on [string_copy] *)

(** The loop at index [i = length done] copies the bytes [copied], none of
    them a terminator, when it has to stop after them: at [max_len - 1] or
    in front of a terminator.  What follows in the source when it stops at
    [max_len - 1] is not read. *)
Lemma string_copy_loop_copy (bd bs : block) (preD preS : list byte)
    (max_len : Z) :
  bd ≠ bs → 0 < max_len < USize.modulus →
  ∀ (copied done room tailS : list byte) (fuel : nat)
    (m : gmap block (list byte)),
    m !! bs = Some (preS ++ done ++ copied ++ tailS) →
    NUL ∉ copied →
    m !! bd = Some (preD ++ done ++ room) →
    (length copied ≤ length room)%nat →
    Z.of_nat (length done) + Z.of_nat (length copied) <= max_len - 1 →
    (Z.of_nat (length done) + Z.of_nat (length copied) = max_len - 1
     ∨ ∃ postS, tailS = NUL :: postS) →
    (length copied ≤ fuel)%nat →
    Sample.string_copy_loop fuel (Ptr bd (Z.of_nat (length preD)))
      (Ptr bs (Z.of_nat (length preS))) max_len (Z.of_nat (length done)) m
    = Ret (Z.of_nat (length done) + Z.of_nat (length copied),
           <[bd := preD ++ done ++ copied ++ drop (length copied) room]> m).
Proof.
  intros Hne Hmax.
  assert (Hsub : USize.sub max_len 1 = max_len - 1)
    by (apply USize_wrap_id; unfold USize.in_range; lia).
  induction copied as [|c copied IH];
    intros done room tailS fuel m Hbs Hnul Hbd Hroom Hbound Hstop Hfuel.
  - assert (Hsame : <[bd := preD ++ done ++ [] ++ drop (length (@nil byte)) room]> m = m)
      by (apply insert_id; exact Hbd).
    rewrite Hsame. cbn [length]. rewrite Z.add_0_r.
    cbn [length] in Hstop, Hbound. rewrite Z.add_0_r in Hstop, Hbound.
    destruct (Z.ltb_spec (Z.of_nat (length done)) (max_len - 1)) as [Hlt|Hge].
    + destruct Hstop as [Hstop | [postS ->]]; [lia |].
      assert (Hload : load m (Ptr bs (Z.of_nat (length preS)) +ₚ Z.of_nat (length done))
                      = Ret NUL).
      { apply (load_middle m bs (preS ++ done) postS).
        - rewrite Hbs. f_equal. same_cells.
        - rewrite length_app. cbn [ptr_add]. lia. }
      destruct fuel; cbn [Sample.string_copy_loop]; rewrite Hsub;
        (replace (Z.of_nat (length done) <? max_len - 1) with true
          by (symmetry; apply Z.ltb_lt; exact Hlt));
        rewrite Hload; reflexivity.
    + destruct fuel; cbn [Sample.string_copy_loop]; rewrite Hsub;
        (replace (Z.of_nat (length done) <? max_len - 1) with false
          by (symmetry; apply Z.ltb_ge; exact Hge));
        reflexivity.
  - destruct fuel as [|fuel]; [simpl in Hfuel; lia |].
    destruct room as [|r room]; [simpl in Hroom; lia |].
    apply not_elem_of_cons in Hnul as [Hc Hnul].
    cbn [length] in Hroom, Hbound, Hstop, Hfuel.
    assert (Hload : load m (Ptr bs (Z.of_nat (length preS)) +ₚ Z.of_nat (length done))
                    = Ret c).
    { apply (load_middle m bs (preS ++ done) (copied ++ tailS)).
      - rewrite Hbs. f_equal. same_cells.
      - rewrite length_app. cbn [ptr_add]. lia. }
    assert (Hstore : store m (Ptr bd (Z.of_nat (length preD)) +ₚ Z.of_nat (length done)) c
                     = Ret (<[bd := (preD ++ done) ++ c :: room]> m)).
    { apply (store_middle m bd (preD ++ done) room r).
      - rewrite Hbd. f_equal. same_cells.
      - rewrite length_app. cbn [ptr_add]. lia. }
    cbn [Sample.string_copy_loop]. rewrite Hsub.
    replace (Z.of_nat (length done) <? max_len - 1) with true
      by (symmetry; apply Z.ltb_lt; lia).
    rewrite Hload. cbn [mbind outcome_bind]. rewrite is_nul_false by congruence.
    rewrite Hstore. cbn [mbind outcome_bind].
    replace (USize.add (Z.of_nat (length done)) 1)
      with (Z.of_nat (length (done ++ [c]))).
    2:{ rewrite length_app. simpl. unfold USize.add.
        rewrite USize_wrap_id by (unfold USize.in_range; lia). lia. }
    rewrite (IH (done ++ [c]) room tailS fuel).
    + rewrite insert_insert_eq. f_equal. f_equal.
      * rewrite length_app. cbn [length]. lia.
      * f_equal. cbn [length drop]. same_cells.
    + rewrite lookup_insert_ne by congruence. rewrite Hbs. f_equal. same_cells.
    + exact Hnul.
    + rewrite lookup_insert_eq. f_equal. same_cells.
    + lia.
    + rewrite length_app. cbn [length]. lia.
    + rewrite length_app. cbn [length].
      destruct Hstop as [Hstop | Hstop]; [left; lia | right; exact Hstop].
    + lia.
Qed.

(** A whole run of [string_copy] between two blocks. *)
Lemma string_copy_run (fuel : nat) (bd bs : block)
    (preD room preS copied tailS : list byte) (max_len : Z)
    (m : gmap block (list byte)) :
  bd ≠ bs → 0 < max_len < USize.modulus →
  m !! bd = Some (preD ++ room) →
  m !! bs = Some (preS ++ copied ++ tailS) →
  NUL ∉ copied →
  (Z.of_nat (length copied) = max_len - 1
   ∨ Z.of_nat (length copied) < max_len - 1 ∧ ∃ postS, tailS = NUL :: postS) →
  (length copied < length room)%nat →
  (length copied ≤ fuel)%nat →
  Sample.string_copy fuel (Ptr bd (Z.of_nat (length preD)))
    (Ptr bs (Z.of_nat (length preS))) max_len m
  = Ret (<[bd := preD ++ copied ++ NUL :: drop (S (length copied)) room]> m).
Proof.
  intros Hne Hmax Hbd Hbs Hnul Hstop Hroom Hfuel.
  assert (Hguard : (max_len =? 0) = false) by (apply Z.eqb_neq; lia).
  remember (drop (length copied) room) as tail eqn:Hdrop. symmetry in Hdrop.
  destruct tail as [|r room'].
  { apply (f_equal length) in Hdrop. rewrite length_drop in Hdrop. simpl in Hdrop. lia. }
  assert (Htail : drop (S (length copied)) room = room').
  { replace (S (length copied)) with (length copied + 1)%nat by lia.
    rewrite <- drop_drop, Hdrop. reflexivity. }
  pose proof (string_copy_loop_copy bd bs preD preS max_len Hne Hmax
                copied [] room tailS fuel m Hbs Hnul Hbd ltac:(lia)
                ltac:(simpl; lia)
                ltac:(simpl; destruct Hstop as [? | [_ ?]]; [left; lia | right; assumption])
                Hfuel) as Hloop.
  cbn [app length] in Hloop. change (Z.of_nat 0) with 0 in Hloop.
  rewrite Z.add_0_l, Hdrop in Hloop.
  unfold Sample.string_copy. cbn [is_null orb]. rewrite Hguard, Hloop.
  cbn [mbind outcome_bind ptr_add].
  rewrite (store_middle _ bd (preD ++ copied) room' r NUL);
    [| rewrite lookup_insert_eq; f_equal; same_cells
     | rewrite length_app; lia].
  rewrite insert_insert_eq, Htail. f_equal. f_equal. same_cells.
Qed.

(** X12.  Copying then measuring: after [string_copy] from a terminated
    string [s] into another block with room, [string_length] of [dest] is
    the smaller of [max_len - 1] and the length of [s], and [dest] holds
    that many first bytes of [s]; in particular the whole of [s] when
    [length s < max_len]. *)
Theorem string_copy_then_length (fuel : nat) (bd bs : block)
    (preD room preS s postS : list byte) (max_len : Z)
    (m : gmap block (list byte)) :
  bd ≠ bs → 0 < max_len < USize.modulus →
  m !! bd = Some (preD ++ room) →
  m !! bs = Some (preS ++ s ++ NUL :: postS) →
  NUL ∉ s →
  let n := (Z.to_nat (max_len - 1) `min` length s)%nat in
  (n < length room)%nat → (n ≤ fuel)%nat →
  ∃ m',
    Sample.string_copy fuel (Ptr bd (Z.of_nat (length preD)))
      (Ptr bs (Z.of_nat (length preS))) max_len m = Ret m'
    ∧ m' !! bd = Some (preD ++ take n s ++ NUL :: drop (S n) room)
    ∧ Sample.string_length fuel (Ptr bd (Z.of_nat (length preD))) m'
      = Ret (Z.min (max_len - 1) (Z.of_nat (length s)))
    ∧ (Z.of_nat (length s) < max_len → take n s = s).
Proof.
  intros Hne Hmax Hbd Hbs Hs n Hroom Hfuel.
  assert (Hn1 : length (take n s) = n) by (rewrite length_take; subst n; lia).
  assert (Hn2 : Z.of_nat n = Z.min (max_len - 1) (Z.of_nat (length s)))
    by (subst n; lia).
  assert (Hsplit : NUL ∉ take n s ++ drop n s) by (rewrite take_drop; exact Hs).
  apply not_elem_of_app in Hsplit as [Htake _].
  exists (<[bd := preD ++ take n s ++ NUL :: drop (S n) room]> m).
  split; [| split; [apply lookup_insert_eq | split]].
  - pose proof (string_copy_run fuel bd bs preD room preS (take n s)
                  (drop n s ++ NUL :: postS) max_len m Hne Hmax Hbd) as Hrun.
    rewrite Hn1 in Hrun. apply Hrun.
    + rewrite Hbs, (app_assoc (take n s) (drop n s)), take_drop. reflexivity.
    + exact Htake.
    + destruct (Z.le_gt_cases (max_len - 1) (Z.of_nat (length s))) as [Hle|Hgt];
        [left; lia |].
      right. split; [lia |]. exists postS.
      rewrite drop_ge by (subst n; lia). reflexivity.
    + exact Hroom.
    + exact Hfuel.
  - unfold Sample.string_length. cbn [is_null].
    pose proof (string_length_loop_run bd preD (drop (S n) room)
                  (<[bd := preD ++ take n s ++ NUL :: drop (S n) room]> m)
                  (take n s) [] fuel) as Hlen.
    rewrite Hn1 in Hlen. cbn [length app] in Hlen.
    change (Z.of_nat 0) with 0 in Hlen. rewrite Z.add_0_l, Hn2 in Hlen.
    apply Hlen; [apply lookup_insert_eq | exact Htake | lia | exact Hfuel].
  - intros Hfit. apply take_ge. subst n. lia.
Qed.

Lemma string_copy_then_length_witness :
  ∃ m',
    Sample.string_copy 2 (Ptr 1 0) (Ptr 2 0) 3
      (<[1%positive := list_byte_of_string "xxxxxx"]>
         (<[2%positive := list_byte_of_string "hello" ++ [NUL]]> ∅)) = Ret m'
    ∧ Sample.string_length 2 (Ptr 1 0) m' = Ret 2.
Proof.
  assert (Hmax : 0 < 3 < USize.modulus) by (split; reflexivity).
  destruct (string_copy_then_length 2 1%positive 2%positive []
              (list_byte_of_string "xxxxxx") [] (list_byte_of_string "hello") [] 3
              (<[1%positive := list_byte_of_string "xxxxxx"]>
                 (<[2%positive := list_byte_of_string "hello" ++ [NUL]]> ∅)))
    as (m' & Hcopy & _ & Hlen & _).
  - discriminate.
  - exact Hmax.
  - reflexivity.
  - reflexivity.
  - intros Hin. apply list_elem_of_In in Hin. simpl in Hin.
    repeat (destruct Hin as [Hin | Hin]; [discriminate Hin |]). exact Hin.
  - simpl. lia.
  - simpl. lia.
  - exists m'. split; [exact Hcopy | exact Hlen].
Defined.

(** X13.  [string_copy] reads [src] at the indices below [max_len - 1]
    only.  When [src] points to [max_len - 1] bytes, none a terminator, the
    run copies them and terminates [dest] whatever follows them in the
    source block, a terminator or not, or nothing at all. *)
Theorem string_copy_unterminated_source (fuel : nat) (bd bs : block)
    (preD room preS s tailS : list byte) (max_len : Z)
    (m : gmap block (list byte)) :
  bd ≠ bs → 0 < max_len < USize.modulus →
  m !! bd = Some (preD ++ room) →
  m !! bs = Some (preS ++ s ++ tailS) →
  NUL ∉ s →
  Z.of_nat (length s) = max_len - 1 →
  (length s < length room)%nat →
  (length s ≤ fuel)%nat →
  Sample.string_copy fuel (Ptr bd (Z.of_nat (length preD)))
    (Ptr bs (Z.of_nat (length preS))) max_len m
  = Ret (<[bd := preD ++ s ++ NUL :: drop (S (length s)) room]> m).
Proof.
  intros Hne Hmax Hbd Hbs Hs Hlen Hroom Hfuel.
  apply (string_copy_run fuel bd bs preD room preS s tailS max_len m);
    try assumption.
  left. exact Hlen.
Qed.

Lemma string_copy_unterminated_source_witness :
  Sample.string_copy 3 (Ptr 1 0) (Ptr 2 0) 4
    (<[1%positive := list_byte_of_string "xxxxxx"]>
       (<[2%positive := list_byte_of_string "abc"]> ∅))
  = Ret (<[1%positive := list_byte_of_string "abc" ++ [NUL] ++ list_byte_of_string "xx"]>
           (<[2%positive := list_byte_of_string "abc"]> ∅)).
Proof.
  assert (Hmax : 0 < 4 < USize.modulus) by (split; reflexivity).
  refine (eq_trans (string_copy_unterminated_source 3 1%positive 2%positive []
                      (list_byte_of_string "xxxxxx") [] (list_byte_of_string "abc") [] 4
                      (<[1%positive := list_byte_of_string "xxxxxx"]>
                         (<[2%positive := list_byte_of_string "abc"]> ∅))
                      _ Hmax _ _ _ _ _ _) _).
  - discriminate.
  - reflexivity.
  - reflexivity.
  - intros Hin. apply list_elem_of_In in Hin. simpl in Hin.
    repeat (destruct Hin as [Hin | Hin]; [discriminate Hin |]). exact Hin.
  - reflexivity.
  - simpl. lia.
  - simpl. lia.
  - reflexivity.
Defined.

(** Storing the value a cell already holds leaves the heap as it is. *)
Lemma store_same {A : Type} (m : gmap block (list A)) (b : block)
    (pre post : list A) (v : A) (ofs : Z) :
  m !! b = Some (pre ++ v :: post) → ofs = Z.of_nat (length pre) →
  store m (Ptr b ofs) v = Ret m.
Proof.
  intros Hb Hofs. rewrite (store_middle m b pre post v v ofs Hb Hofs).
  f_equal. apply insert_id. exact Hb.
Qed.

(** With [dest] and [src] the same pointer every byte is written back onto
    itself: the loop leaves the heap as it is. *)
Lemma string_copy_loop_self (b : block) (pre : list byte) (max_len : Z)
    (m : gmap block (list byte)) :
  0 < max_len < USize.modulus →
  ∀ (copied done tailS : list byte) (fuel : nat),
    m !! b = Some (pre ++ done ++ copied ++ tailS) →
    NUL ∉ copied →
    Z.of_nat (length done) + Z.of_nat (length copied) <= max_len - 1 →
    (Z.of_nat (length done) + Z.of_nat (length copied) = max_len - 1
     ∨ ∃ postS, tailS = NUL :: postS) →
    (length copied ≤ fuel)%nat →
    Sample.string_copy_loop fuel (Ptr b (Z.of_nat (length pre)))
      (Ptr b (Z.of_nat (length pre))) max_len (Z.of_nat (length done)) m
    = Ret (Z.of_nat (length done) + Z.of_nat (length copied), m).
Proof.
  intros Hmax.
  assert (Hsub : USize.sub max_len 1 = max_len - 1)
    by (apply USize_wrap_id; unfold USize.in_range; lia).
  induction copied as [|c copied IH];
    intros done tailS fuel Hb Hnul Hbound Hstop Hfuel.
  - cbn [length] in *. rewrite Z.add_0_r in *.
    destruct (Z.ltb_spec (Z.of_nat (length done)) (max_len - 1)) as [Hlt|Hge].
    + destruct Hstop as [Hstop | [postS ->]]; [lia |].
      assert (Hload : load m (Ptr b (Z.of_nat (length pre)) +ₚ Z.of_nat (length done))
                      = Ret NUL).
      { apply (load_middle m b (pre ++ done) postS).
        - rewrite Hb. f_equal. same_cells.
        - rewrite length_app. cbn [ptr_add]. lia. }
      destruct fuel; cbn [Sample.string_copy_loop]; rewrite Hsub;
        (replace (Z.of_nat (length done) <? max_len - 1) with true
          by (symmetry; apply Z.ltb_lt; exact Hlt));
        rewrite Hload; reflexivity.
    + destruct fuel; cbn [Sample.string_copy_loop]; rewrite Hsub;
        (replace (Z.of_nat (length done) <? max_len - 1) with false
          by (symmetry; apply Z.ltb_ge; exact Hge));
        reflexivity.
  - destruct fuel as [|fuel]; [simpl in Hfuel; lia |].
    apply not_elem_of_cons in Hnul as [Hc Hnul].
    cbn [length] in Hbound, Hstop, Hfuel.
    assert (Hcell : m !! b = Some ((pre ++ done) ++ c :: copied ++ tailS))
      by (rewrite Hb; f_equal; same_cells).
    assert (Hofs : Z.of_nat (length pre) + Z.of_nat (length done)
                   = Z.of_nat (length (pre ++ done)))
      by (rewrite length_app; lia).
    cbn [Sample.string_copy_loop]. rewrite Hsub.
    replace (Z.of_nat (length done) <? max_len - 1) with true
      by (symmetry; apply Z.ltb_lt; lia).
    cbn [ptr_add].
    rewrite (load_middle m b (pre ++ done) (copied ++ tailS) c _ Hcell Hofs).
    cbn [mbind outcome_bind]. rewrite is_nul_false by congruence.
    rewrite (store_same m b (pre ++ done) (copied ++ tailS) c _ Hcell Hofs).
    cbn [mbind outcome_bind].
    replace (USize.add (Z.of_nat (length done)) 1)
      with (Z.of_nat (length (done ++ [c]))).
    2:{ rewrite length_app. simpl. unfold USize.add.
        rewrite USize_wrap_id by (unfold USize.in_range; lia). lia. }
    rewrite (IH (done ++ [c]) tailS fuel).
    + f_equal. f_equal. rewrite length_app. cbn [length]. lia.
    + rewrite Hb. f_equal. same_cells.
    + exact Hnul.
    + rewrite length_app. cbn [length]. lia.
    + rewrite length_app. cbn [length].
      destruct Hstop as [Hstop | Hstop]; [left; lia | right; exact Hstop].
    + lia.
Qed.

(** X14.  [string_copy] with [dest] and [src] the same pointer to a
    terminated string [s] cuts the string in place: it plants a terminator
    at index [min (max_len - 1) (length s)] and changes nothing else, so a
    string shorter than [max_len] is left as it was. *)
Theorem string_copy_onto_itself (fuel : nat) (b : block)
    (pre s post : list byte) (max_len : Z) (m : gmap block (list byte)) :
  0 < max_len < USize.modulus →
  m !! b = Some (pre ++ s ++ NUL :: post) →
  NUL ∉ s →
  let n := (Z.to_nat (max_len - 1) `min` length s)%nat in
  (n ≤ fuel)%nat →
  Sample.string_copy fuel (Ptr b (Z.of_nat (length pre)))
    (Ptr b (Z.of_nat (length pre))) max_len m
  = Ret (<[b := pre ++ <[n := NUL]> (s ++ NUL :: post)]> m)
  ∧ (Z.of_nat (length s) < max_len →
     Sample.string_copy fuel (Ptr b (Z.of_nat (length pre)))
       (Ptr b (Z.of_nat (length pre))) max_len m = Ret m).
Proof.
  intros Hmax Hb Hs n Hfuel.
  assert (Hguard : (max_len =? 0) = false) by (apply Z.eqb_neq; lia).
  assert (Hn1 : length (take n s) = n) by (rewrite length_take; subst n; lia).
  assert (Hsplit : NUL ∉ take n s ++ drop n s) by (rewrite take_drop; exact Hs).
  apply not_elem_of_app in Hsplit as [Htake _].
  assert (Hcells : s ++ NUL :: post = take n s ++ drop n s ++ NUL :: post)
    by (rewrite (app_assoc (take n s) (drop n s)), take_drop; reflexivity).
  remember (drop n s ++ NUL :: post) as tail eqn:Htail.
  destruct tail as [|t tail'].
  { apply (f_equal length) in Htail. rewrite length_app in Htail.
    simpl in Htail. lia. }
  assert (Hplant : <[n := NUL]> (s ++ NUL :: post) = take n s ++ NUL :: tail').
  { rewrite Hcells, insert_app_r_alt by lia.
    rewrite Hn1, Nat.sub_diag. reflexivity. }
  assert (Hrun : Sample.string_copy fuel (Ptr b (Z.of_nat (length pre)))
                   (Ptr b (Z.of_nat (length pre))) max_len m
                 = Ret (<[b := pre ++ <[n := NUL]> (s ++ NUL :: post)]> m)).
  { pose proof (string_copy_loop_self b pre max_len m Hmax (take n s) []
                  (t :: tail') fuel) as Hloop.
    rewrite Hn1 in Hloop. cbn [app length] in Hloop.
    change (Z.of_nat 0) with 0 in Hloop. rewrite Z.add_0_l in Hloop.
    unfold Sample.string_copy. cbn [is_null orb]. rewrite Hguard, Hloop.
    - cbn [mbind outcome_bind ptr_add].
      rewrite (store_middle m b (pre ++ take n s) tail' t NUL);
        [| rewrite Hb, Hcells; f_equal; same_cells
         | rewrite length_app, Hn1; lia].
      f_equal. f_equal. rewrite Hplant. same_cells.
    - rewrite Hb, Hcells. reflexivity.
    - exact Htake.
    - subst n. lia.
    - destruct (Z.le_gt_cases (max_len - 1) (Z.of_nat (length s))) as [Hle|Hgt];
        [left; subst n; lia |].
      right. exists post.
      rewrite drop_ge in Htail by (subst n; lia). simpl in Htail.
      exact Htail.
    - exact Hfuel. }
  split; [exact Hrun |].
  intros Hfit. rewrite Hrun. f_equal.
  assert (Hn : n = length s) by (subst n; lia).
  rewrite list_insert_id; [apply insert_id; exact Hb |].
  rewrite Hn. apply list_lookup_middle. reflexivity.
Qed.

Lemma string_copy_onto_itself_witness :
  Sample.string_copy 2 (Ptr 1 0) (Ptr 1 0) 3
    (<[1%positive := list_byte_of_string "hello" ++ [NUL]]> ∅)
  = Ret (<[1%positive := list_byte_of_string "he" ++ [NUL] ++ list_byte_of_string "lo"
                           ++ [NUL]]> ∅).
Proof.
  assert (Hmax : 0 < 3 < USize.modulus) by (split; reflexivity).
  destruct (string_copy_onto_itself 2 1%positive [] (list_byte_of_string "hello") [] 3
              (<[1%positive := list_byte_of_string "hello" ++ [NUL]]> ∅) Hmax)
    as (Hrun & _).
  - reflexivity.
  - intros Hin. apply list_elem_of_In in Hin. simpl in Hin.
    repeat (destruct Hin as [Hin | Hin]; [discriminate Hin |]). exact Hin.
  - simpl. lia.
  - refine (eq_trans Hrun _). reflexivity.
Defined.
